(** * control/plugin_manager.go: the loaded-plugin table and the plugin manager

    A shallow embedding of [loadedPlugins] (the table of loaded plugins with
    its shared iteration cursor) and of [pluginManager] ([LoadPlugin],
    [UnloadPlugin]).

    Go values are modelled as follows.
    - [int] is a 64-bit two's complement integer: a [Z] wrapped by
      [GoInt.wrap] wherever the source does arithmetic on it.
    - A [*loadedPlugin] is an address into the object heap [objects], or nil.
      Pointer equality [lp == pl] is equality of addresses.
    - A slice is a header (backing array, offset, length, capacity) over the
      heap of backing arrays [arrays].  Slicing shares the backing array and
      [append] writes in place while the capacity allows: both matter for
      [Table], which hands out the header of the live table.
    - [l.table] is a pointer to a slice header that only the methods below
      reassign; the header is stored by value in the registry.
    - The mutex only serialises concurrent callers.  The embedding is
      sequential and leaves it out.
    - A function returns [Done r w'] (result and new world) or [Panic] when
      the Go runtime panics (index out of range, nil dereference).  The
      loop of [UnloadPlugin] runs on fuel, one unit per call of [Next], and
      returns [OutOfFuel] when it has none left. *)

From Stdlib Require Import ZArith Lia.
From stdpp Require Import base numbers list strings pretty.

(** ** Machine integers *)

Module GoInt.

Definition min_int : Z := (- 2 ^ 63)%Z.
Definition max_int : Z := (2 ^ 63 - 1)%Z.

(** Two's complement wrap-around of a 64-bit [int]. *)
Definition wrap (z : Z) : Z := ((z + 2 ^ 63) mod 2 ^ 64 - 2 ^ 63)%Z.

Definition add (a b : Z) : Z := wrap (a + b).
Definition sub (a b : Z) : Z := wrap (a - b).

End GoInt.

(** [strconv.Itoa]: decimal digits with a leading minus sign. *)
Definition Itoa (z : Z) : string := pretty z.

(** ** Package [plugin] (imported, not part of this file) *)

Module plugin.

(** Modelled from the spec: the metadata of a plugin, name and version. *)
Record PluginMeta := { Name : string; Version : Z }.

(** Modelled from the spec: the kinds of plugin. *)
Inductive PluginType := Collector | Processor | Publisher.

(** Modelled from the spec: the state a handshake response reports. *)
Inductive PluginResponseState := PluginSuccess | PluginFailure.

(** Modelled from the spec: the handshake response of a spawned plugin. *)
Record Response := {
  State : PluginResponseState;
  ErrorMessage : string;
  Meta : PluginMeta;
  Type_ : PluginType;
  Token : string
}.

(** [rsa.PublicKey], modulus and exponent. *)
Record PublicKey := { N : Z; E : Z }.

(** Modelled from the spec: the argument bundle handed to a plugin. *)
Record Arg := {
  ControlPubKey : option PublicKey;
  PluginLogPath : string;
  RunAsDaemon : bool
}.

Global Instance PluginResponseState_eq_dec : EqDecision PluginResponseState :=
  ltac:(solve_decision).

End plugin.

(** ** Data model *)

Definition pluginState := string.

Definition DetectedState : pluginState := "detected".
Definition LoadingState : pluginState := "loading".
Definition LoadedState : pluginState := "loaded".
Definition UnloadedState : pluginState := "unloaded".

(** [type loadedPlugin struct]; [LoadedTime] in unix seconds. *)
Record loadedPlugin := {
  Meta : plugin.PluginMeta;
  Path : string;
  Type_ : plugin.PluginType;
  State : pluginState;
  Token : string;
  LoadedTime : Z
}.

(** The zero value that [new(loadedPlugin)] allocates. *)
Definition zero_loadedPlugin : loadedPlugin :=
  {| Meta := {| plugin.Name := ""; plugin.Version := 0 |};
     Path := ""; Type_ := plugin.Collector; State := "";
     Token := ""; LoadedTime := 0 |}.

Definition addr := nat.

(** A [*loadedPlugin]: [None] is nil. *)
Definition ptr := option addr.

(** A slice header over the array heap. *)
Record slice := { arr : addr; off : nat; len : nat; cap : nat }.

(** [type loadedPlugins struct] without its mutex. *)
Record loadedPlugins := { table : slice; currentIter : Z }.

(** [type pluginManager struct]; the private key is never read. *)
Record pluginManager := {
  LoadedPlugins : loadedPlugins;
  pubKey : option plugin.PublicKey
}.

(** The heap of backing arrays, the heap of plugin objects, the manager. *)
Record world := {
  arrays : list (list ptr);
  objects : list loadedPlugin;
  manager : pluginManager
}.

Inductive outcome (A : Type) : Type :=
  | Done (a : A) (w : world)
  | Panic
  | OutOfFuel.
Arguments Done {A} a w.
Arguments Panic {A}.
Arguments OutOfFuel {A}.

(** A Go [error]: nil, or [errors.New msg]. *)
Definition error := option string.

Definition bind {A B} (m : outcome A) (k : A -> world -> outcome B) : outcome B :=
  match m with
  | Done a w => k a w
  | Panic => Panic
  | OutOfFuel => OutOfFuel
  end.

Definition registry (w : world) : loadedPlugins := LoadedPlugins (manager w).

Definition set_registry (w : world) (l : loadedPlugins) : world :=
  {| arrays := arrays w; objects := objects w;
     manager := {| LoadedPlugins := l; pubKey := pubKey (manager w) |} |}.

Definition set_arrays (w : world) (h : list (list ptr)) : world :=
  {| arrays := h; objects := objects w; manager := manager w |}.

Definition set_objects (w : world) (o : list loadedPlugin) : world :=
  {| arrays := arrays w; objects := o; manager := manager w |}.

(** ** Slices *)

(** The capacity that [append] gives a reallocated slice is the runtime's
    choice: the needed length plus some slack. *)
Class Runtime := { growslack : nat -> nat -> nat }.

(** Amortised doubling, as the Go runtime does for short slices. *)
Definition doubling : Runtime := {| growslack oldcap needed := 2 * oldcap - needed |}.

Definition backing (h : list (list ptr)) (s : slice) : list ptr :=
  default [] (h !! arr s).

(** The elements a slice shows: [s[0], ..., s[len(s)-1]]. *)
Definition elems (h : list (list ptr)) (s : slice) : list ptr :=
  take (len s) (drop (off s) (backing h s)).

(** [s[i]], bounds-checked. *)
Definition index (h : list (list ptr)) (s : slice) (i : Z) : option ptr :=
  if bool_decide (0 <= i < Z.of_nat (len s))%Z then elems h s !! Z.to_nat i else None.

(** [s[:hi]]: the upper bound may reach the capacity. *)
Definition slice_to (s : slice) (hi : Z) : option slice :=
  if bool_decide (0 <= hi <= Z.of_nat (cap s))%Z
  then Some {| arr := arr s; off := off s; len := Z.to_nat hi; cap := cap s |}
  else None.

(** [s[lo:]]: the lower bound may reach the length. *)
Definition slice_from (s : slice) (lo : Z) : option slice :=
  if bool_decide (0 <= lo <= Z.of_nat (len s))%Z
  then Some {| arr := arr s; off := off s + Z.to_nat lo;
               len := len s - Z.to_nat lo; cap := cap s - Z.to_nat lo |}
  else None.

(** [append(s, xs...)]: in place when the capacity allows, otherwise into a
    fresh array.  The source elements are read before any write (memmove). *)
Definition go_append `{Runtime} (h : list (list ptr)) (s : slice) (xs : list ptr)
  : list (list ptr) * slice :=
  let needed := len s + length xs in
  if bool_decide (needed <= cap s) then
    (<[arr s := list_inserts (off s + len s) xs (backing h s)]> h,
     {| arr := arr s; off := off s; len := needed; cap := cap s |})
  else
    let slack := growslack (cap s) needed in
    (h ++ [elems h s ++ xs ++ replicate slack None],
     {| arr := length h; off := 0; len := needed; cap := needed + slack |}).

(** [make([]*loadedPlugin, 0)]. *)
Definition make0 (h : list (list ptr)) : list (list ptr) * slice :=
  (h ++ [[]], {| arr := length h; off := 0; len := 0; cap := 0 |}).

(** ** loadedPlugins *)

Definition newLoadedPlugins (h : list (list ptr)) : list (list ptr) * loadedPlugins :=
  let '(h', t) := make0 h in (h', {| table := t; currentIter := 0 |}).

(** [newPluginManager] on an empty heap; the keys are left nil. *)
Definition newPluginManager : world :=
  let '(h, l) := newLoadedPlugins [] in
  {| arrays := h; objects := [];
     manager := {| LoadedPlugins := l; pubKey := None |} |}.

(** The records of the live table, in order. *)
Definition view (w : world) : list ptr := elems (arrays w) (table (registry w)).

(** The [range] loop of [Append]: the first index holding [lp]. *)
Fixpoint range_find (lp : ptr) (i : Z) (l : list ptr) : option Z :=
  match l with
  | [] => None
  | pl :: l' => if decide (lp = pl) then Some i else range_find lp (i + 1) l'
  end.

Definition DuplicateEntry (i : Z) : string := "plugin already loaded at index " +:+ Itoa i.

Definition Append `{Runtime} (w : world) (lp : ptr) : outcome error :=
  let l := registry w in
  match range_find lp 0 (elems (arrays w) (table l)) with
  | Some i => Done (Some (DuplicateEntry i)) w
  | None =>
      let '(h, newLoadedPlugins) := go_append (arrays w) (table l) [lp] in
      Done None (set_registry (set_arrays w h)
                   {| table := newLoadedPlugins; currentIter := currentIter l |})
  end.

(** [Table]: the header of the live table, by value. *)
Definition Table (w : world) : slice := table (registry w).

Definition IndexOutOfRange : string := "index out of range".

(** The length of the table minus one is at least -1 and does not wrap. *)
Definition Get (w : world) (i : Z) : outcome (ptr * error) :=
  let l := registry w in
  if (i >? Z.of_nat (len (table l)) - 1)%Z then Done (None, Some IndexOutOfRange) w
  else match index (arrays w) (table l) i with
       | Some p => Done (p, None) w
       | None => Panic
       end.

Definition splice `{Runtime} (w : world) (i : Z) : outcome unit :=
  let l := registry w in
  match slice_to (table l) i, slice_from (table l) (GoInt.add i 1) with
  | Some front, Some back =>
      let '(h, lp) := go_append (arrays w) front (elems (arrays w) back) in
      Done tt (set_registry (set_arrays w h)
                 {| table := lp; currentIter := currentIter l |})
  | _, _ => Panic
  end.

Definition NonblockingSplice `{Runtime} (w : world) (i : Z) : outcome unit := splice w i.

Definition Splice `{Runtime} (w : world) (i : Z) : outcome unit := splice w i.

Definition Item (w : world) : outcome (Z * ptr) :=
  let l := registry w in
  let i := GoInt.sub (currentIter l) 1 in
  match index (arrays w) (table l) i with
  | Some p => Done (i, p) w
  | None => Panic
  end.

Definition Next (w : world) : outcome bool :=
  let l := registry w in
  let c := GoInt.add (currentIter l) 1 in
  if (c >? Z.of_nat (len (table l)))%Z
  then Done false (set_registry w {| table := table l; currentIter := 0 |})
  else Done true (set_registry w {| table := table l; currentIter := c |}).

(** ** loadedPlugin *)

(** Modelled from the spec: the read contract of a catalog entry, of which
    [UnloadPlugin] calls [Name] and [Version]. *)
Class CatalogedPlugin (T : Type) := { Name : T -> string; Version : T -> Z }.

Global Instance loadedPlugin_CatalogedPlugin : CatalogedPlugin loadedPlugin :=
  {| Name lp := plugin.Name (Meta lp); Version lp := plugin.Version (Meta lp) |}.

(** [TypeName] needs the names of the plugin types, which package [plugin]
    holds; it is left out. *)
Definition Status (lp : loadedPlugin) : string := State lp.

Definition LoadedTimestamp (lp : loadedPlugin) : Z := LoadedTime lp.

(** [*p] for a [*loadedPlugin]; [None] when [p] is nil (a runtime panic). *)
Definition deref (w : world) (p : ptr) : option loadedPlugin :=
  match p with
  | Some a => objects w !! a
  | None => None
  end.

(** ** pluginManager *)

Definition generateArgs (p : pluginManager) (daemon : bool) : plugin.Arg :=
  {| plugin.ControlPubKey := pubKey p;
     plugin.PluginLogPath := "/tmp";
     plugin.RunAsDaemon := daemon |}.

(** Modelled from the spec: the launcher of plugin executables, with the
    handle of a spawned process as a number, and the clock. *)
Record Launcher := {
  NewExecutablePlugin : plugin.Arg -> string -> bool -> nat + string;
  Start : nat -> error;
  WaitForResponse : nat -> Z -> plugin.Response + string;
  Now : Z
}.

(** [time.Second], in nanoseconds. *)
Definition Second : Z := 1000000000.

Definition newline : string := String (Ascii.ascii_of_nat 10) EmptyString.

(** [fmt.Errorf("Plugin loading did not succeed: %s\n", msg)]. *)
Definition HandshakeRejected (msg : string) : string :=
  "Plugin loading did not succeed: " +:+ msg +:+ newline.

(** Logging is left out. *)
Definition LoadPlugin `{Runtime} (L : Launcher) (w : world) (path : string)
  : outcome error :=
  let lPlugin := length (objects w) in
  let r := {| Meta := Meta zero_loadedPlugin; Path := path;
              Type_ := Type_ zero_loadedPlugin; State := DetectedState;
              Token := Token zero_loadedPlugin;
              LoadedTime := LoadedTime zero_loadedPlugin |} in
  let w1 := set_objects w (objects w ++ [r]) in
  match NewExecutablePlugin L (generateArgs (manager w1) false) (Path r) false with
  | inr err => Done (Some err) w1
  | inl ePlugin =>
      match Start L ePlugin with
      | Some err => Done (Some err) w1
      | None =>
          match WaitForResponse L ePlugin (Second * 3) with
          | inr err => Done (Some err) w1
          | inl resp =>
              if negb (bool_decide (plugin.State resp = plugin.PluginSuccess))
              then Done (Some (HandshakeRejected (plugin.ErrorMessage resp))) w1
              else
                let r' := {| Meta := plugin.Meta resp; Path := Path r;
                             Type_ := plugin.Type_ resp; State := LoadedState;
                             Token := plugin.Token resp; LoadedTime := Now L |} in
                let w2 := set_objects w1 (<[lPlugin := r']> (objects w1)) in
                bind (Append w2 (Some lPlugin)) (fun err w3 =>
                  match err with
                  | Some e => Done (Some e) w3
                  | None => Done None w3
                  end)
          end
      end
  end.

Definition PluginNotFound (name : string) (version : Z) : string :=
  "plugin [" +:+ name +:+ "] -- [" +:+ Itoa version
    +:+ "] not found (has it already been unloaded?)".

Definition InvalidState : string := "Plugin must be in a LoadedState".

(** The scan of [UnloadPlugin], [for p.LoadedPlugins.Next() { ... }], with
    its three local variables; one unit of fuel per call of [Next]. *)
Fixpoint find_loop `{CatalogedPlugin T} (fuel : nat) (pl : T)
    (index : Z) (plugin : ptr) (found : bool) (w : world)
  : outcome (Z * ptr * bool) :=
  match fuel with
  | O => OutOfFuel
  | S fuel' =>
      bind (Next w) (fun more w1 =>
        if more then
          if negb found then
            bind (Item w1) (fun '(i, lp) w2 =>
              match deref w2 lp with
              | None => Panic
              | Some r =>
                  if String.eqb (Name pl) (plugin.Name (Meta r))
                     && Z.eqb (Version pl) (plugin.Version (Meta r))
                  then find_loop fuel' pl i lp true w2
                  else find_loop fuel' pl index plugin found w2
              end)
          else Done (index, plugin, found) w1
        else Done (index, plugin, found) w1)
  end.

Definition UnloadPlugin `{Runtime} `{CatalogedPlugin T} (fuel : nat) (w : world) (pl : T)
  : outcome error :=
  bind (find_loop fuel pl 0 None false w) (fun '(index, plugin, found) w1 =>
    if negb found then Done (Some (PluginNotFound (Name pl) (Version pl))) w1
    else
      match deref w1 plugin with
      | None => Panic
      | Some r =>
          if negb (String.eqb (State r) LoadedState) then Done (Some InvalidState) w1
          else bind (NonblockingSplice w1 index) (fun _ w2 => Done None w2)
      end).

(** ** Well-formed states *)

(** A slice is backed: its array exists and holds its whole capacity. *)
Definition slice_ok (h : list (list ptr)) (s : slice) : Prop :=
  arr s < length h /\ len s <= cap s /\ off s + cap s <= length (backing h s).

(** Go values of type [int]. *)
Definition is_int (z : Z) : Prop := (GoInt.min_int <= z <= GoInt.max_int)%Z.

(** The cursor of a registry, set to [c]. *)
Definition with_cursor (w : world) (c : Z) : world :=
  set_registry w {| table := table (registry w); currentIter := c |}.

(** The live table is backed and shorter than the largest [int]. *)
Definition table_ok (w : world) : Prop :=
  slice_ok (arrays w) (table (registry w))
  /\ (Z.of_nat (len (table (registry w))) < GoInt.max_int)%Z.

(** Every entry of the live table points to a plugin object. *)
Definition records_ok (w : world) : Prop :=
  Forall (fun p => is_Some (deref w p)) (view w).

(** [pl] names the plugin object that [p] points to. *)
Definition is_match `{CatalogedPlugin T} (pl : T) (w : world) (p : ptr) : bool :=
  match deref w p with
  | Some r => String.eqb (Name pl) (plugin.Name (Meta r))
              && Z.eqb (Version pl) (plugin.Version (Meta r))
  | None => false
  end.

(** The state of the plugin object that [p] points to. *)
Definition state_of (w : world) (p : ptr) : option pluginState :=
  State <$> deref w p.

(** The cursor is a non-negative [int] below the largest one. *)
Definition cursor_ok (w : world) : Prop :=
  (0 <= currentIter (registry w) < GoInt.max_int)%Z.

Definition no_match `{CatalogedPlugin T} (pl : T) (w : world) (l : list ptr) : Prop :=
  Forall (fun p => is_match pl w p = false) l.

(** ** Reachable states *)

(** One call of a listed operation that returns; [int] arguments are in
    range. *)
Inductive step `{Runtime} : world -> world -> Prop :=
  | step_Append w lp e w' : Append w lp = Done e w' -> step w w'
  | step_Get w i r w' : is_int i -> Get w i = Done r w' -> step w w'
  | step_Splice w i w' : is_int i -> Splice w i = Done tt w' -> step w w'
  | step_NonblockingSplice w i w' :
      is_int i -> NonblockingSplice w i = Done tt w' -> step w w'
  | step_LoadPlugin L w path e w' : LoadPlugin L w path = Done e w' -> step w w'
  | step_UnloadPlugin (T : Type) (C : CatalogedPlugin T) fuel w (pl : T) e w' :
      UnloadPlugin fuel w pl = Done e w' -> step w w'.

Inductive reachable `{Runtime} : world -> Prop :=
  | reachable_new : reachable newPluginManager
  | reachable_step w w' : reachable w -> step w w' -> reachable w'.

(** The (name, version) pair is unique among the entries of the table
    whose state is not Unloaded. *)
Definition key_unique (w : world) : Prop :=
  forall i j p q r1 r2,
    view w !! i = Some p -> view w !! j = Some q ->
    deref w p = Some r1 -> deref w q = Some r2 ->
    State r1 <> UnloadedState -> State r2 <> UnloadedState ->
    Name r1 = Name r2 -> Version r1 = Version r2 ->
    i = j.

(** One call of the manager that returns: the table changes through
    [LoadPlugin] and [UnloadPlugin] only. *)
Inductive manager_step `{Runtime} : world -> world -> Prop :=
  | manager_LoadPlugin L w path e w' :
      LoadPlugin L w path = Done e w' -> manager_step w w'
  | manager_UnloadPlugin (T : Type) (C : CatalogedPlugin T) fuel w (pl : T) e w' :
      UnloadPlugin fuel w pl = Done e w' -> manager_step w w'.

Inductive managed `{Runtime} : world -> Prop :=
  | managed_new : managed newPluginManager
  | managed_step w w' : managed w -> manager_step w w' -> managed w'.

(** Every entry of the table points to a plugin object in Loaded state. *)
Definition all_loaded (w : world) : Prop :=
  Forall (fun p => state_of w p = Some LoadedState) (view w).

(** The record that a successful [LoadPlugin] leaves behind. *)
Definition loaded_record (L : Launcher) (path : string) (resp : plugin.Response)
  : loadedPlugin :=
  {| Meta := plugin.Meta resp; Path := path; Type_ := plugin.Type_ resp;
     State := LoadedState; Token := plugin.Token resp; LoadedTime := Now L |}.

(** ** Sample plugins, worlds and launchers *)

Definition a_plugin (name : string) (version : Z) (state : pluginState) : loadedPlugin :=
  {| Meta := {| plugin.Name := name; plugin.Version := version |};
     Path := "/bin/" +:+ name; Type_ := plugin.Collector; State := state;
     Token := "abc"; LoadedTime := 0 |}.

(** A registry whose table shows [tbl], in an array of that size. *)
Definition a_world (o : list loadedPlugin) (tbl : list ptr) (cursor : Z) : world :=
  {| arrays := [tbl]; objects := o;
     manager := {| LoadedPlugins :=
                     {| table := {| arr := 0; off := 0; len := length tbl; cap := length tbl |};
                        currentIter := cursor |};
                   pubKey := None |} |}.

Definition success (name : string) (version : Z) : plugin.Response :=
  {| plugin.State := plugin.PluginSuccess; plugin.ErrorMessage := "";
     plugin.Meta := {| plugin.Name := name; plugin.Version := version |};
     plugin.Type_ := plugin.Collector; plugin.Token := "abc" |}.

Definition rejection (msg : string) : plugin.Response :=
  {| plugin.State := plugin.PluginFailure; plugin.ErrorMessage := msg;
     plugin.Meta := {| plugin.Name := ""; plugin.Version := 0 |};
     plugin.Type_ := plugin.Collector; plugin.Token := "" |}.

(** A launcher whose plugin starts and answers [resp]. *)
Definition responding (resp : plugin.Response) : Launcher :=
  {| NewExecutablePlugin _ _ _ := inl 0; Start _ := None;
     WaitForResponse _ _ := inl resp; Now := 0 |}.

Definition two_collectors : world :=
  {| arrays := [[]; [Some 0]; [Some 0; Some 1]];
     objects :=
       [{| Meta := {| plugin.Name := "collector"; plugin.Version := 1 |};
           Path := "/bin/collector-v1"; Type_ := plugin.Collector;
           State := LoadedState; Token := "abc"; LoadedTime := 0 |};
        {| Meta := {| plugin.Name := "collector"; plugin.Version := 1 |};
           Path := "/bin/collector-copy"; Type_ := plugin.Collector;
           State := LoadedState; Token := "abc"; LoadedTime := 0 |}];
     manager := {| LoadedPlugins :=
                     {| table := {| arr := 2; off := 0; len := 2; cap := 2 |};
                        currentIter := 0 |};
                   pubKey := None |} |}.

(** One plugin loaded into a new manager. *)
Definition one_collector : world :=
  {| arrays := [[]; [Some 0]];
     objects :=
       [{| Meta := {| plugin.Name := "collector"; plugin.Version := 1 |};
           Path := "/bin/collector-v1"; Type_ := plugin.Collector;
           State := LoadedState; Token := "abc"; LoadedTime := 0 |}];
     manager := {| LoadedPlugins :=
                     {| table := {| arr := 1; off := 0; len := 1; cap := 1 |};
                        currentIter := 0 |};
                   pubKey := None |} |}.

(** Three plugins loaded one after the other into a new manager. *)
Definition three_loaded : world :=
  {| arrays := [[]; [Some 0]; [Some 0; Some 1]; [Some 0; Some 1; Some 2; None]];
     objects :=
       [{| Meta := {| plugin.Name := "a"; plugin.Version := 1 |};
           Path := "/bin/a"; Type_ := plugin.Collector;
           State := LoadedState; Token := "abc"; LoadedTime := 0 |};
        {| Meta := {| plugin.Name := "b"; plugin.Version := 1 |};
           Path := "/bin/b"; Type_ := plugin.Collector;
           State := LoadedState; Token := "abc"; LoadedTime := 0 |};
        {| Meta := {| plugin.Name := "c"; plugin.Version := 1 |};
           Path := "/bin/c"; Type_ := plugin.Collector;
           State := LoadedState; Token := "abc"; LoadedTime := 0 |}];
     manager := {| LoadedPlugins :=
                     {| table := {| arr := 3; off := 0; len := 3; cap := 4 |};
                        currentIter := 0 |};
                   pubKey := None |} |}.

(** Two records with one identity, the first still detected. *)
Definition shadowed : world :=
  a_world [a_plugin "p" 1 DetectedState; a_plugin "p" 1 LoadedState]
          [Some 0; Some 1] 0.

(** Two loaded plugins and a cursor left behind by an earlier scan. *)
Definition stale : world :=
  a_world [a_plugin "a" 1 LoadedState; a_plugin "b" 1 LoadedState]
          [Some 0; Some 1] 2.

Definition four_entries : world :=
  a_world [a_plugin "x" 1 LoadedState; a_plugin "y" 1 LoadedState;
           a_plugin "p" 1 DetectedState; a_plugin "p" 1 LoadedState]
          [Some 0; Some 1; Some 2; Some 3] 0.

Ltac solve_table_ok :=
  unfold table_ok, slice_ok, GoInt.max_int; simpl; lia.

Ltac solve_records_ok :=
  unfold records_ok;
  repeat (apply Forall_cons; split; [eexists; reflexivity |]); apply Forall_nil_2.

Ltac solve_no_match :=
  unfold no_match;
  repeat (apply Forall_cons; split; [reflexivity |]); apply Forall_nil_2.

(** ** Machine integers: no wrap-around in range *)

Lemma wrap_in_range (z : Z) : is_int z -> GoInt.wrap z = z.
Proof.
  unfold is_int, GoInt.wrap, GoInt.min_int, GoInt.max_int. intros Hz.
  rewrite Z.mod_small; lia.
Qed.

Lemma wrap_is_int (z : Z) : is_int (GoInt.wrap z).
Proof.
  unfold is_int, GoInt.wrap, GoInt.min_int, GoInt.max_int.
  pose proof (Z.mod_pos_bound (z + 2 ^ 63) (2 ^ 64)). lia.
Qed.

Lemma add_succ_max : GoInt.add GoInt.max_int 1 = GoInt.min_int.
Proof. reflexivity. Qed.

(** ** Slices: what [append] and slicing show *)

Section Slices.
Context `{Runtime}.

Lemma length_elems h s : slice_ok h s -> length (elems h s) = len s.
Proof.
  intros (_ & Hlen & Hcap). unfold elems.
  rewrite length_take, length_drop. lia.
Qed.

Lemma elems_lookup h s j :
  j < len s -> elems h s !! j = backing h s !! (off s + j).
Proof.
  intros Hj. unfold elems. rewrite lookup_take, lookup_drop.
  destruct (decide (j < len s)); [reflexivity | lia].
Qed.

(** In place: the array changes from position [off + len] on only. *)
Lemma go_append_in_place h s xs :
  len s + length xs <= cap s ->
  go_append h s xs =
    (<[arr s := list_inserts (off s + len s) xs (backing h s)]> h,
     {| arr := arr s; off := off s; len := len s + length xs; cap := cap s |}).
Proof.
  intros Hfit. unfold go_append. rewrite bool_decide_eq_true_2 by exact Hfit.
  reflexivity.
Qed.

Lemma go_append_elems h s xs h' s' :
  slice_ok h s -> go_append h s xs = (h', s') ->
  elems h' s' = elems h s ++ xs /\ slice_ok h' s'.
Proof.
  intros Hok Happ. pose proof Hok as (Harr & Hlen & Hcap).
  pose proof (length_elems h s Hok) as Hle.
  unfold go_append in Happ. case_bool_decide as Hfit; inversion Happ; subst; clear Happ.
  - assert (Hb : backing (<[arr s:=list_inserts (off s + len s) xs (backing h s)]> h)
                   {| arr := arr s; off := off s; len := len s + length xs; cap := cap s |}
                 = list_inserts (off s + len s) xs (backing h s)).
    { unfold backing at 1. simpl. rewrite list_lookup_insert_eq by exact Harr. reflexivity. }
    split.
    + apply list_eq. intros j. unfold elems at 1. rewrite Hb. simpl.
      rewrite lookup_take, lookup_drop.
      destruct (decide (j < len s + length xs)) as [Hj|Hj].
      * destruct (decide (j < len s)) as [Hjl|Hjl].
        -- rewrite list_lookup_inserts_lt by lia.
           rewrite lookup_app_l by lia. rewrite elems_lookup by lia. reflexivity.
        -- rewrite list_lookup_inserts by lia.
           rewrite lookup_app_r by lia. f_equal. lia.
      * symmetry. apply lookup_ge_None. rewrite length_app. lia.
    + unfold slice_ok. rewrite Hb. simpl. rewrite length_insert, length_inserts. lia.
  - assert (Hb : backing (h ++ [elems h s ++ xs ++ replicate (growslack (cap s) (len s + length xs)) None])
                   {| arr := length h; off := 0; len := len s + length xs;
                      cap := len s + length xs + growslack (cap s) (len s + length xs) |}
                 = elems h s ++ xs ++ replicate (growslack (cap s) (len s + length xs)) None).
    { unfold backing. simpl. rewrite lookup_app_r by lia.
      rewrite Nat.sub_diag. reflexivity. }
    split.
    + unfold elems at 1. rewrite Hb. simpl. rewrite app_assoc.
      apply take_app_length'. rewrite length_app. lia.
    + unfold slice_ok. rewrite Hb. simpl.
      rewrite !length_app, length_replicate, Hle. simpl. lia.
Qed.

(** A slice whose array [append] does not write keeps its elements. *)
Lemma go_append_frame h s xs h' s' t :
  slice_ok h s -> go_append h s xs = (h', s') ->
  arr t < length h -> arr t <> arr s -> elems h' t = elems h t.
Proof.
  intros (Harr & _) Happ Ht Hne. unfold go_append in Happ.
  case_bool_decide; inversion Happ; subst; clear Happ; unfold elems, backing.
  - rewrite list_lookup_insert_ne by congruence. reflexivity.
  - rewrite lookup_app_l by exact Ht. reflexivity.
Qed.

End Slices.

(** ** The table: Append, Get, splice *)

Lemma range_find_None lp i l : lp ∉ l -> range_find lp i l = None.
Proof.
  revert i. induction l as [|pl l IH]; intros i Hnot; simpl; [reflexivity |].
  destruct (decide (lp = pl)) as [->|Hne].
  - exfalso. apply Hnot. left.
  - apply IH. intros Hin. apply Hnot. right. exact Hin.
Qed.

(** The index that the [range] loop reports is the first one holding [lp]. *)
Lemma range_find_Some lp i l :
  lp ∈ l ->
  exists n, range_find lp i l = Some (i + Z.of_nat n)%Z
            /\ l !! n = Some lp /\ lp ∉ take n l.
Proof.
  revert i. induction l as [|pl l IH]; intros i Hin.
  - inversion Hin.
  - simpl. destruct (decide (lp = pl)) as [->|Hne].
    + exists 0. rewrite Z.add_0_r. repeat split. simpl. intros Hx. inversion Hx.
    + assert (Hl : lp ∈ l) by (inversion Hin; subst; [congruence | assumption]).
      destruct (IH (i + 1)%Z Hl) as (n & Hf & Hn & Hbefore).
      exists (S n). rewrite Hf. repeat split.
      * f_equal. lia.
      * exact Hn.
      * simpl. intros Hx. inversion Hx; subst; [congruence | contradiction].
Qed.

Section Table.
Context `{Runtime}.

Lemma Append_present w lp :
  lp ∈ view w ->
  exists n, Append w lp = Done (Some (DuplicateEntry (Z.of_nat n))) w
            /\ view w !! n = Some lp /\ lp ∉ take n (view w).
Proof.
  intros Hin. destruct (range_find_Some lp 0 (view w) Hin) as (n & Hf & Hn & Hb).
  exists n. unfold Append. fold (view w). rewrite Hf. rewrite Z.add_0_l. auto.
Qed.

Lemma Append_fresh w lp :
  slice_ok (arrays w) (table (registry w)) -> lp ∉ view w ->
  exists w', Append w lp = Done None w'
             /\ view w' = view w ++ [lp]
             /\ slice_ok (arrays w') (table (registry w'))
             /\ objects w' = objects w
             /\ currentIter (registry w') = currentIter (registry w).
Proof.
  intros Hok Hnot. unfold Append. fold (view w).
  rewrite (range_find_None lp 0 (view w) Hnot).
  destruct (go_append (arrays w) (table (registry w)) [lp]) as [h s] eqn:Happ.
  destruct (go_append_elems _ _ _ _ _ Hok Happ) as [Hel Hok'].
  eexists. split; [reflexivity |]. repeat split; try exact Hel; apply Hok'.
Qed.

Lemma Get_above w i :
  (Z.of_nat (len (table (registry w))) <= i)%Z ->
  Get w i = Done (None, Some IndexOutOfRange) w.
Proof.
  intros Hi. unfold Get.
  destruct (Z.gtb_spec i (Z.of_nat (len (table (registry w))) - 1)); [reflexivity | lia].
Qed.

Lemma Get_within w i :
  slice_ok (arrays w) (table (registry w)) ->
  (0 <= i < Z.of_nat (len (table (registry w))))%Z ->
  exists p, view w !! Z.to_nat i = Some p /\ Get w i = Done (p, None) w.
Proof.
  intros Hok Hi. unfold Get.
  destruct (Z.gtb_spec i (Z.of_nat (len (table (registry w))) - 1)); [lia |].
  unfold index. rewrite bool_decide_eq_true_2 by exact Hi. fold (view w).
  destruct (view w !! Z.to_nat i) as [p|] eqn:Hp.
  - exists p. auto.
  - apply lookup_ge_None in Hp. unfold view in Hp.
    rewrite (length_elems _ _ Hok) in Hp. lia.
Qed.

Lemma Get_negative w i : (i < 0)%Z -> Get w i = Panic.
Proof.
  intros Hi. unfold Get.
  destruct (Z.gtb_spec i (Z.of_nat (len (table (registry w))) - 1)); [lia |].
  unfold index. rewrite bool_decide_eq_false_2 by lia. reflexivity.
Qed.

(** [splice] at a position whose successor does not wrap. *)
Lemma splice_at w (n : nat) :
  slice_ok (arrays w) (table (registry w)) ->
  n < len (table (registry w)) ->
  GoInt.add (Z.of_nat n) 1 = Z.of_nat (S n) ->
  exists w', splice w (Z.of_nat n) = Done tt w'
             /\ view w' = delete n (view w)
             /\ slice_ok (arrays w') (table (registry w'))
             /\ objects w' = objects w
             /\ currentIter (registry w') = currentIter (registry w)
             /\ len (table (registry w')) = len (table (registry w)) - 1.
Proof.
  intros Hok Hn Hadd. pose proof Hok as (Harr & Hlen & Hcap).
  set (t := table (registry w)) in *.
  unfold splice. fold t. rewrite Hadd. unfold slice_to, slice_from.
  rewrite !bool_decide_eq_true_2 by lia. rewrite !Nat2Z.id.
  set (front := {| arr := arr t; off := off t; len := n; cap := cap t |}).
  set (back := {| arr := arr t; off := off t + S n; len := len t - S n; cap := cap t - S n |}).
  assert (Hfront : slice_ok (arrays w) front).
  { unfold slice_ok, backing in *. simpl. lia. }
  assert (Hef : elems (arrays w) front = take n (view w)).
  { unfold view, elems. fold t. simpl. rewrite take_take.
    replace (n `min` len t) with n by lia. reflexivity. }
  assert (Heb : elems (arrays w) back = drop (S n) (view w)).
  { unfold view, elems. fold t. simpl. unfold backing at 1. simpl. fold (backing (arrays w) t).
    rewrite <- drop_drop, take_drop_commute.
    replace (S n + (len t - S n)) with (len t) by lia. reflexivity. }
  destruct (go_append (arrays w) front (elems (arrays w) back)) as [h s] eqn:Happ.
  destruct (go_append_elems _ _ _ _ _ Hfront Happ) as [Hel Hok'].
  assert (Hs : len s = len t - 1).
  { rewrite go_append_in_place in Happ.
    - inversion Happ; subst. simpl. rewrite Heb, length_drop.
      unfold view. fold t. rewrite (length_elems _ _ Hok). lia.
    - simpl. rewrite Heb, length_drop. unfold view. fold t.
      rewrite (length_elems _ _ Hok). lia. }
  eexists. split; [reflexivity |]. repeat split; try apply Hok'; try exact Hs.
  unfold view at 1. simpl. rewrite Hel, Hef, Heb. symmetry. apply delete_take_drop.
Qed.

Lemma succ_no_wrap (n : nat) :
  (Z.of_nat n < GoInt.max_int)%Z -> GoInt.add (Z.of_nat n) 1 = Z.of_nat (S n).
Proof.
  intros Hn. unfold GoInt.add. rewrite wrap_in_range.
  - lia.
  - unfold is_int, GoInt.min_int, GoInt.max_int in *. lia.
Qed.

(** Whenever [splice] returns, it has deleted the entry at a valid index. *)
Lemma splice_inv w i w' :
  is_int i -> slice_ok (arrays w) (table (registry w)) ->
  splice w i = Done tt w' ->
  (0 <= i < Z.of_nat (len (table (registry w))))%Z
  /\ view w' = delete (Z.to_nat i) (view w)
  /\ slice_ok (arrays w') (table (registry w'))
  /\ objects w' = objects w.
Proof.
  intros Hint Hok Hs.
  assert (Hr : (0 <= i < Z.of_nat (len (table (registry w))))%Z /\ (i < GoInt.max_int)%Z).
  { unfold splice, slice_to, slice_from in Hs.
    case_bool_decide as H1; [| discriminate].
    case_bool_decide as H2; [| discriminate].
    destruct (decide (i = GoInt.max_int)) as [->|Hne].
    - rewrite add_succ_max in H2. unfold GoInt.min_int in H2. lia.
    - assert (Hlt : (i < GoInt.max_int)%Z) by (unfold is_int in Hint; lia).
      unfold GoInt.add in H2. rewrite wrap_in_range in H2.
      + lia.
      + unfold is_int, GoInt.min_int, GoInt.max_int in *. lia. }
  destruct Hr as [Hr Hlt]. split; [exact Hr |].
  destruct (splice_at w (Z.to_nat i) Hok) as (w2 & Hs2 & Hv & Hok2 & Ho & _).
  - lia.
  - apply succ_no_wrap. lia.
  - rewrite Z2Nat.id in Hs2 by lia. rewrite Hs in Hs2. inversion Hs2; subst. auto.
Qed.

End Table.

(** ** The shared cursor: Next, Item and the scan of UnloadPlugin *)

Lemma with_cursor_id w : with_cursor w (currentIter (registry w)) = w.
Proof. destruct w as [h o [[t c] k]]. reflexivity. Qed.

Lemma Next_more w (c : nat) :
  c < len (table (registry w)) -> (Z.of_nat c < GoInt.max_int)%Z ->
  Next (with_cursor w (Z.of_nat c)) = Done true (with_cursor w (Z.of_nat (S c))).
Proof.
  intros Hc Hmax. unfold Next. simpl. rewrite (succ_no_wrap c Hmax).
  destruct (Z.gtb_spec (Z.of_nat (S c)) (Z.of_nat (len (table (registry w))))); [lia |].
  reflexivity.
Qed.

Lemma Next_end w (c : nat) :
  len (table (registry w)) <= c -> (Z.of_nat c < GoInt.max_int)%Z ->
  Next (with_cursor w (Z.of_nat c)) = Done false (with_cursor w 0).
Proof.
  intros Hc Hmax. unfold Next. simpl. rewrite (succ_no_wrap c Hmax).
  destruct (Z.gtb_spec (Z.of_nat (S c)) (Z.of_nat (len (table (registry w))))); [| lia].
  reflexivity.
Qed.

Lemma Item_current w (c : nat) p :
  view w !! c = Some p -> (Z.of_nat c < GoInt.max_int)%Z ->
  Item (with_cursor w (Z.of_nat (S c)))
  = Done (Z.of_nat c, p) (with_cursor w (Z.of_nat (S c))).
Proof.
  intros Hp Hmax. unfold Item. simpl.
  assert (Hsub : GoInt.sub (Z.of_nat (S c)) 1 = Z.of_nat c).
  { unfold GoInt.sub. rewrite wrap_in_range.
    - lia.
    - unfold is_int, GoInt.min_int, GoInt.max_int in *. lia. }
  rewrite Hsub. unfold index.
  assert (Hc : c < len (table (registry w))).
  { apply lookup_lt_Some in Hp. unfold view, elems in Hp.
    rewrite length_take in Hp. lia. }
  rewrite bool_decide_eq_true_2 by lia. rewrite Nat2Z.id.
  fold (view w). rewrite Hp. reflexivity.
Qed.

Section Scan.
Context `{CatalogedPlugin T}.
Variable pl : T.
Variable w : world.
Hypothesis Htable : table_ok w.
Hypothesis Hrecords : records_ok w.

Let n := len (table (registry w)).

Lemma length_view : length (view w) = n.
Proof. apply length_elems, Htable. Qed.

Lemma deref_entry (c : nat) p : view w !! c = Some p -> is_Some (deref w p).
Proof.
  intros Hp. unfold records_ok in Hrecords.
  rewrite Forall_lookup in Hrecords. exact (Hrecords c p Hp).
Qed.

(** One turn of the loop on an entry that does not match. *)
Lemma find_loop_skip fuel (c : nat) p idx plg :
  view w !! c = Some p -> is_match pl w p = false ->
  find_loop (S fuel) pl idx plg false (with_cursor w (Z.of_nat c))
  = find_loop fuel pl idx plg false (with_cursor w (Z.of_nat (S c))).
Proof.
  intros Hp Hm. destruct Htable as [Hok Hmax]. fold n in Hmax.
  assert (Hc : c < n) by (rewrite <- length_view; eapply lookup_lt_Some; eauto).
  cbn [find_loop]. rewrite Next_more by (fold n; lia). cbn [bind negb].
  rewrite (Item_current w c p Hp) by lia. cbn [bind].
  destruct (deref_entry c p Hp) as [r Hr].
  unfold is_match in Hm. rewrite Hr in Hm.
  change (deref (with_cursor w (Z.of_nat (S c))) p) with (deref w p).
  rewrite Hr, Hm. reflexivity.
Qed.

(** The scan from cursor [c] when nothing from there on matches: it
    reaches the end and resets the cursor. *)
Lemma find_loop_no_match fuel : forall (c : nat) idx plg,
  (Z.of_nat c < GoInt.max_int)%Z ->
  Forall (fun p => is_match pl w p = false) (drop c (view w)) ->
  n - c < fuel ->
  find_loop fuel pl idx plg false (with_cursor w (Z.of_nat c))
  = Done (idx, plg, false) (with_cursor w 0).
Proof.
  induction fuel as [|fuel IH]; intros c idx plg Hmax Hno Hfuel; [lia |].
  destruct (decide (c < n)) as [Hc|Hc].
  - destruct (lookup_lt_is_Some_2 (view w) c) as [p Hp]; [rewrite length_view; exact Hc |].
    assert (Hd : drop c (view w) = p :: drop (S c) (view w)).
    { apply drop_S. exact Hp. }
    rewrite Hd in Hno. apply Forall_cons in Hno as [Hm Hno].
    rewrite (find_loop_skip fuel c p idx plg Hp Hm).
    apply IH; [| exact Hno | lia].
    destruct Htable as [_ Hlt]. fold n in Hlt. lia.
  - cbn [find_loop]. rewrite Next_end by (fold n; lia). reflexivity.
Qed.

(** The scan from cursor [c] when the first match from there on is [p],
    after [pre]: it stops one step past the match, or at the end. *)
Lemma find_loop_match pre : forall (c : nat) p post idx plg fuel,
  drop c (view w) = pre ++ p :: post ->
  Forall (fun q => is_match pl w q = false) pre ->
  is_match pl w p = true ->
  length pre + 2 <= fuel ->
  find_loop fuel pl idx plg false (with_cursor w (Z.of_nat c))
  = Done (Z.of_nat (c + length pre), p, true)
         (with_cursor w (match post with
                         | [] => 0
                         | _ :: _ => Z.of_nat (c + length pre + 2)
                         end)).
Proof.
  destruct Htable as [Hok Hmax]. fold n in Hmax.
  induction pre as [|q pre IH]; intros c p post idx plg fuel Hd Hno Hm Hfuel.
  - simpl in Hd.
    assert (Hp : view w !! c = Some p).
    { rewrite <- (Nat.add_0_r c), <- lookup_drop, Hd. reflexivity. }
    assert (Hc : c < n) by (rewrite <- length_view; eapply lookup_lt_Some; eauto).
    destruct fuel as [|[|fuel]]; [simpl in Hfuel; lia | simpl in Hfuel; lia |].
    cbn [find_loop]. rewrite Next_more by (fold n; lia). cbn [bind negb].
    rewrite (Item_current w c p Hp) by lia. cbn [bind].
    destruct (deref_entry c p Hp) as [r Hr].
    unfold is_match in Hm. rewrite Hr in Hm.
    change (deref (with_cursor w (Z.of_nat (S c))) p) with (deref w p).
    rewrite Hr, Hm. cbn [find_loop].
    assert (Hlen : length (drop c (view w)) = n - c) by (rewrite length_drop, length_view; reflexivity).
    rewrite Hd in Hlen. simpl in Hlen. simpl length. rewrite Nat.add_0_r.
    destruct post as [|q post]; simpl in Hlen.
    + rewrite Next_end by (fold n; lia). reflexivity.
    + rewrite Next_more by (fold n; lia). cbn [bind negb].
      do 2 f_equal. lia.
  - simpl in Hd. apply Forall_cons in Hno as [Hq Hno].
    assert (Hqc : view w !! c = Some q).
    { rewrite <- (Nat.add_0_r c), <- lookup_drop, Hd. reflexivity. }
    assert (Hd' : drop (S c) (view w) = pre ++ p :: post).
    { rewrite (drop_S _ _ _ Hqc) in Hd. inversion Hd. reflexivity. }
    destruct fuel as [|fuel]; [simpl in Hfuel; lia |].
    rewrite (find_loop_skip fuel c q idx plg Hqc Hq).
    rewrite (IH (S c) p post idx plg fuel Hd' Hno Hm) by (simpl in Hfuel; lia).
    simpl length. replace (S c + length pre) with (c + S (length pre)) by lia.
    reflexivity.
Qed.

End Scan.

(** ** UnloadPlugin *)

Section Unload.
Context `{Runtime} `{CatalogedPlugin T}.

(** Nothing from the cursor on matches: not found, the cursor is reset. *)
Lemma UnloadPlugin_no_match_from_cursor w (pl : T) fuel :
  table_ok w -> records_ok w -> cursor_ok w ->
  no_match pl w (drop (Z.to_nat (currentIter (registry w))) (view w)) ->
  length (view w) < fuel ->
  UnloadPlugin fuel w pl
  = Done (Some (PluginNotFound (Name pl) (Version pl))) (with_cursor w 0).
Proof.
  intros Ht Hr Hc Hno Hfuel. unfold UnloadPlugin.
  rewrite <- (with_cursor_id w) at 1.
  rewrite <- (Z2Nat.id (currentIter (registry w))) by apply Hc.
  rewrite (find_loop_no_match pl w Ht Hr fuel).
  - reflexivity.
  - rewrite Z2Nat.id by apply Hc. apply Hc.
  - exact Hno.
  - rewrite <- (length_view w Ht). lia.
Qed.

(** With the cursor at [c], the scan finds the first match [p] from there
    on; what follows depends on the state of [p] only. *)
Lemma UnloadPlugin_first_match w (pl : T) (c : nat) pre p post fuel :
  table_ok w -> records_ok w -> currentIter (registry w) = Z.of_nat c ->
  drop c (view w) = pre ++ p :: post -> no_match pl w pre -> is_match pl w p = true ->
  length pre + 2 <= fuel ->
  let w1 := with_cursor w (match post with
                           | [] => 0
                           | _ :: _ => Z.of_nat (c + length pre + 2)
                           end) in
  UnloadPlugin fuel w pl
  = match state_of w p with
    | Some s =>
        if negb (String.eqb s LoadedState) then Done (Some InvalidState) w1
        else bind (NonblockingSplice w1 (Z.of_nat (c + length pre)))
               (fun _ w2 => Done None w2)
    | None => Panic
    end.
Proof.
  intros Ht Hr Hc Hv Hno Hm Hfuel w1. unfold UnloadPlugin.
  rewrite <- (with_cursor_id w) at 1. rewrite Hc.
  rewrite (find_loop_match pl w Ht Hr pre c p post) by (try exact Hv; assumption).
  cbn [bind negb]. fold w1.
  change (deref w1 p) with (deref w p). unfold state_of.
  destruct (deref w p) as [r|]; reflexivity.
Qed.

(** Whatever the scan returns, it has moved the cursor only, and the index
    it reports is an [int]. *)
Lemma find_loop_frame (pl : T) fuel : forall idx plg fnd w i p f w',
  find_loop fuel pl idx plg fnd w = Done (i, p, f) w' ->
  (exists c, w' = with_cursor w c) /\ (is_int idx -> is_int i).
Proof.
  induction fuel as [|fuel IH]; intros idx plg fnd w i p f w' Hf; [discriminate |].
  cbn [find_loop] in Hf. unfold Next in Hf.
  set (c1 := GoInt.add (currentIter (registry w)) 1) in Hf.
  destruct (c1 >? Z.of_nat (len (table (registry w))))%Z; cbn [bind] in Hf.
  - inversion Hf; subst. split; [exists 0%Z; reflexivity | auto].
  - destruct fnd; cbn [negb] in Hf.
    + inversion Hf; subst. split; [exists c1; reflexivity | auto].
    + unfold Item in Hf.
      match type of Hf with context [index ?h ?s ?j] => destruct (index h s j) as [lp|] end;
        [| discriminate].
      cbn [bind] in Hf.
      match type of Hf with context [deref ?x lp] => destruct (deref x lp) as [r|] end;
        [| discriminate].
      match type of Hf with context [if ?b then _ else _] => destruct b end;
        apply IH in Hf as [[c ->] Hi]; (split; [exists c; reflexivity |]); intros Hidx.
      * apply Hi, wrap_is_int.
      * apply Hi, Hidx.
Qed.

(** Whenever [UnloadPlugin] returns, the table is as before or has lost
    the entry at one index. *)
Lemma UnloadPlugin_inv w (pl : T) fuel e w' :
  slice_ok (arrays w) (table (registry w)) ->
  UnloadPlugin fuel w pl = Done e w' ->
  slice_ok (arrays w') (table (registry w'))
  /\ objects w' = objects w
  /\ (view w' = view w \/ exists k, view w' = delete k (view w)).
Proof.
  intros Hok Hu. unfold UnloadPlugin in Hu.
  destruct (find_loop fuel pl 0 None false w) as [[[i p] f] w1| |] eqn:Hf; [| discriminate..].
  apply find_loop_frame in Hf as [[c ->] Hi]. cbn [bind] in Hu.
  destruct f; cbn [negb] in Hu.
  - destruct (deref (with_cursor w c) p) as [r|]; [| discriminate].
    destruct (negb (State r =? LoadedState)%string).
    + inversion Hu; subst. auto.
    + unfold NonblockingSplice in Hu.
      destruct (splice (with_cursor w c) i) as [[] w2| |] eqn:Hs; [| discriminate..].
      cbn [bind] in Hu. inversion Hu; subst.
      apply splice_inv in Hs as (_ & Hv & Hok' & Ho).
      * repeat split; [apply Hok'.. | exact Ho | right; eexists; exact Hv].
      * apply Hi. unfold is_int, GoInt.min_int, GoInt.max_int. lia.
      * exact Hok.
  - inversion Hu; subst. auto.
Qed.

End Unload.

(** ** LoadPlugin *)

Section Load.
Context `{Runtime}.

(** Whenever [Append] returns, it has reported a duplicate and changed
    nothing, or it has put [lp], which was not in the table, at the end. *)
Lemma Append_inv w lp e w' :
  slice_ok (arrays w) (table (registry w)) ->
  Append w lp = Done e w' ->
  (e <> None /\ w' = w)
  \/ (e = None /\ (lp ∉ view w) /\ view w' = view w ++ [lp]
      /\ slice_ok (arrays w') (table (registry w')) /\ objects w' = objects w).
Proof.
  intros Hok Ha. destruct (decide (lp ∈ view w)) as [Hin|Hnot].
  - destruct (Append_present w lp Hin) as (n & Hn & _).
    rewrite Hn in Ha. inversion Ha; subst. left. split; [discriminate | reflexivity].
  - destruct (Append_fresh w lp Hok Hnot) as (w2 & Hw2 & Hv & Hok2 & Ho & _).
    rewrite Hw2 in Ha. inversion Ha; subst. right. auto.
Qed.

(** A duplicate report leaves the world as it was, well-formed or not. *)
Lemma Append_error w lp e w' : Append w lp = Done (Some e) w' -> w' = w.
Proof.
  unfold Append. intros Ha.
  destruct (range_find lp 0 (elems (arrays w) (table (registry w)))).
  - inversion Ha. reflexivity.
  - destruct (go_append (arrays w) (table (registry w)) [lp]). discriminate.
Qed.

(** A failing [LoadPlugin] leaves the arrays and the registry untouched. *)
Lemma LoadPlugin_error L w path e w' :
  LoadPlugin L w path = Done (Some e) w' ->
  arrays w' = arrays w /\ registry w' = registry w.
Proof.
  unfold LoadPlugin. intros Hl.
  destruct (NewExecutablePlugin L _ _ _) as [ePlugin|err]; [| inversion Hl; auto].
  destruct (Start L ePlugin) as [err|]; [inversion Hl; auto |].
  destruct (WaitForResponse L ePlugin _) as [resp|err]; [| inversion Hl; auto].
  destruct (negb _); [inversion Hl; auto |].
  match type of Hl with context [Append ?x ?p] => destruct (Append x p) as [[e1|] w3| |] eqn:Ha end;
    cbn [bind] in Hl; try discriminate.
  apply Append_error in Ha. inversion Hl; subst. auto.
Qed.

(** Whenever [LoadPlugin] returns, the table is as before or has one more
    entry, which was not in it. *)
Lemma LoadPlugin_inv L w path e w' :
  slice_ok (arrays w) (table (registry w)) ->
  LoadPlugin L w path = Done e w' ->
  slice_ok (arrays w') (table (registry w'))
  /\ (view w' = view w \/ exists lp, (lp ∉ view w) /\ view w' = view w ++ [lp]).
Proof.
  intros Hok Hl. destruct e as [e|].
  - apply LoadPlugin_error in Hl as [Ha Hr]. unfold view. rewrite Ha, Hr. auto.
  - unfold LoadPlugin in Hl.
    destruct (NewExecutablePlugin L _ _ _) as [ePlugin|err]; [| discriminate].
    destruct (Start L ePlugin) as [err|]; [discriminate |].
    destruct (WaitForResponse L ePlugin _) as [resp|err]; [| discriminate].
    destruct (negb _); [discriminate |].
    match type of Hl with context [Append ?x ?p] => destruct (Append x p) as [[e1|] w3| |] eqn:Ha end;
      cbn [bind] in Hl; try discriminate.
    inversion Hl; subst.
    apply Append_inv in Ha as [[Hne _]|(_ & Hnot & Hv & Hok' & _)]; [congruence | | exact Hok].
    split; [exact Hok' |]. right. eexists. split; [exact Hnot | exact Hv].
Qed.

End Load.

(** ** Reachable states: the invariant *)

Lemma NoDup_snoc_fresh (l : list ptr) (x : ptr) : NoDup l -> x ∉ l -> NoDup (l ++ [x]).
Proof.
  intros Hnd Hx. apply NoDup_app. split; [exact Hnd |]. split.
  - intros y Hy Hin. apply list_elem_of_singleton in Hin. subst. contradiction.
  - apply NoDup_singleton.
Qed.

Section Reach.
Context `{Runtime}.

Lemma Get_inv w i r w' : Get w i = Done r w' -> w' = w.
Proof.
  unfold Get. destruct (i >? _)%Z; [intros Hg; inversion Hg; reflexivity |].
  destruct (index _ _ _); intros Hg; inversion Hg. reflexivity.
Qed.

Lemma step_invariant w w' :
  step w w' ->
  slice_ok (arrays w) (table (registry w)) -> NoDup (view w) ->
  slice_ok (arrays w') (table (registry w')) /\ NoDup (view w').
Proof.
  intros Hstep Hok Hnd. destruct Hstep as
    [w lp e w' Ha | w i r w' _ Hg | w i w' Hi Hs | w i w' Hi Hs
     | L w path e w' Hl | T C fuel w pl e w' Hu].
  - apply Append_inv in Ha as [[_ ->]|(_ & Hnot & Hv & Hok' & _)]; [auto | | exact Hok].
    split; [exact Hok' |]. rewrite Hv. apply NoDup_snoc_fresh; assumption.
  - apply Get_inv in Hg as ->. auto.
  - apply splice_inv in Hs as (_ & Hv & Hok' & _); [| assumption..].
    split; [exact Hok' |]. rewrite Hv. eapply sublist_NoDup; [exact Hnd | apply sublist_delete].
  - apply splice_inv in Hs as (_ & Hv & Hok' & _); [| assumption..].
    split; [exact Hok' |]. rewrite Hv. eapply sublist_NoDup; [exact Hnd | apply sublist_delete].
  - apply LoadPlugin_inv in Hl as [Hok' [Hv|(lp & Hnot & Hv)]]; [| | exact Hok];
      (split; [exact Hok' |]); rewrite Hv; [exact Hnd |].
    apply NoDup_snoc_fresh; assumption.
  - apply UnloadPlugin_inv in Hu as (Hok' & _ & [Hv|[k Hv]]); [| | exact Hok];
      (split; [exact Hok' |]); rewrite Hv; [exact Hnd |].
    eapply sublist_NoDup; [exact Hnd | apply sublist_delete].
Qed.

Lemma reachable_invariant w :
  reachable w -> slice_ok (arrays w) (table (registry w)) /\ NoDup (view w).
Proof.
  induction 1 as [|w w' _ [Hok Hnd] Hstep].
  - split; [unfold slice_ok; simpl; lia | apply NoDup_nil_2].
  - eapply step_invariant; eassumption.
Qed.

End Reach.

(** ** Helper facts on the samples *)

Lemma two_collectors_reachable : reachable (H := doubling) two_collectors.
Proof.
  eapply reachable_step.
  - eapply reachable_step; [apply reachable_new |].
    eapply (step_LoadPlugin (responding (success "collector" 1)) _ "/bin/collector-v1").
    reflexivity.
  - eapply (step_LoadPlugin (responding (success "collector" 1)) _ "/bin/collector-copy").
    reflexivity.
Qed.


(** ** The table: claims *)

(** C4. On a backed table, [Append] of a reference that the table already
    holds returns the duplicate error, naming the first index that holds
    it, and leaves the world as it was; [Append] of a reference that the
    table does not hold returns nil and the table shows the old entries,
    in order, followed by the new one. *)
Theorem Append_duplicate_or_last `{Runtime} (w : world) (lp : ptr) :
  slice_ok (arrays w) (table (registry w)) ->
  (lp ∈ view w ->
   exists n, Append w lp = Done (Some (DuplicateEntry (Z.of_nat n))) w
             /\ view w !! n = Some lp)
  /\ (lp ∉ view w ->
      exists w', Append w lp = Done None w'
                 /\ view w' = view w ++ [lp]
                 /\ length (view w') = S (length (view w))).
Proof.
  intros Hok. split.
  - intros Hin. destruct (Append_present w lp Hin) as (n & Hn & Hl & _). eauto.
  - intros Hnot. destruct (Append_fresh w lp Hok Hnot) as (w' & Hw' & Hv & _).
    exists w'. rewrite Hv, length_app. simpl. repeat split; [assumption | lia].
Qed.

Lemma Append_duplicate_or_last_witness :
  (exists n, Append (H := doubling) three_loaded (Some 1)
             = Done (Some (DuplicateEntry (Z.of_nat n))) three_loaded
             /\ view three_loaded !! n = Some (Some 1))
  /\ (exists w', Append (H := doubling) three_loaded None = Done None w'
                 /\ view w' = view three_loaded ++ [None]
                 /\ length (view w') = S (length (view three_loaded))).
Proof.
  assert (Hok : slice_ok (arrays three_loaded) (table (registry three_loaded))).
  { unfold slice_ok. simpl. lia. }
  split.
  - apply (Append_duplicate_or_last (H := doubling) three_loaded (Some 1) Hok).
    right. left.
  - apply (Append_duplicate_or_last (H := doubling) three_loaded None Hok).
    change (view three_loaded) with [Some 0; Some 1; Some 2].
    repeat (apply not_elem_of_cons; split; [discriminate |]). apply not_elem_of_nil.
Defined.

(** C5. On a backed table of length n, [Get] at an index of at least n
    returns the index-out-of-range error, and [Get] at an index from 0 to
    n-1 returns the record at that position of the table, in order. *)
Theorem Get_in_order (w : world) (i : Z) :
  slice_ok (arrays w) (table (registry w)) ->
  ((Z.of_nat (length (view w)) <= i)%Z ->
   Get w i = Done (None, Some IndexOutOfRange) w)
  /\ ((0 <= i < Z.of_nat (length (view w)))%Z ->
      exists p, view w !! Z.to_nat i = Some p /\ Get w i = Done (p, None) w).
Proof.
  intros Hok. unfold view at 1 2. rewrite (length_elems _ _ Hok). split.
  - apply Get_above.
  - apply Get_within. exact Hok.
Qed.

Lemma Get_in_order_witness :
  Get three_loaded 3 = Done (None, Some IndexOutOfRange) three_loaded
  /\ exists p, view three_loaded !! Z.to_nat 2 = Some p
               /\ Get three_loaded 2 = Done (p, None) three_loaded.
Proof.
  assert (Hok : slice_ok (arrays three_loaded) (table (registry three_loaded))).
  { unfold slice_ok. simpl. lia. }
  split.
  - apply (Get_in_order three_loaded 3 Hok). simpl. lia.
  - apply (Get_in_order three_loaded 2 Hok). simpl. lia.
Defined.

(** C10. [Get] guards the upper bound of the index only: at a negative
    index the error branch is not taken, the table is indexed and the
    runtime panics, so [Get] does not return the index-out-of-range error;
    on a backed table [Get] returns at every index that is not negative. *)
Theorem Get_negative_index_panics (w : world) (i : Z) :
  ((i < 0)%Z ->
   Get w i = Panic /\ Get w i <> Done (None, Some IndexOutOfRange) w)
  /\ (slice_ok (arrays w) (table (registry w)) -> (0 <= i)%Z ->
      exists r, Get w i = Done r w).
Proof.
  split.
  - intros Hi. rewrite (Get_negative w i Hi). split; [reflexivity | discriminate].
  - intros Hok Hi.
    destruct (decide (i < Z.of_nat (len (table (registry w))))%Z) as [Hlt|Hge].
    + destruct (Get_within w i Hok) as (p & _ & Hg); [lia |]. eauto.
    + rewrite Get_above by lia. eauto.
Qed.

Lemma Get_negative_index_panics_witness :
  (Get three_loaded (-1) = Panic
   /\ Get three_loaded (-1) <> Done (None, Some IndexOutOfRange) three_loaded)
  /\ exists r, Get three_loaded 0 = Done r three_loaded.
Proof.
  split.
  - apply (Get_negative_index_panics three_loaded (-1)). lia.
  - apply (Get_negative_index_panics three_loaded 0); [unfold slice_ok; simpl; lia | lia].
Defined.

(** ** UnloadPlugin: claims *)

Lemma is_match_deref `{CatalogedPlugin T} (pl : T) w p :
  is_match pl w p = true -> is_Some (state_of w p).
Proof.
  unfold is_match, state_of. destruct (deref w p); [eauto | discriminate].
Qed.

(** After a call of [Next] that returns true, [Item] is at the position
    that the cursor had before the call. *)
Lemma Next_then_Item w (c : nat) w'' :
  slice_ok (arrays w) (table (registry w)) ->
  currentIter (registry w) = Z.of_nat c -> (Z.of_nat c < GoInt.max_int)%Z ->
  Next w = Done true w'' ->
  exists q, view w !! c = Some q /\ Item w'' = Done (Z.of_nat c, q) w''.
Proof.
  intros Hok Hc Hmax Hn. rewrite <- (with_cursor_id w), Hc in Hn.
  destruct (decide (c < len (table (registry w)))) as [Hlt|Hge].
  - rewrite Next_more in Hn by assumption. inversion Hn; subst.
    destruct (lookup_lt_is_Some_2 (view w) c) as [q Hq].
    { unfold view. rewrite (length_elems _ _ Hok). exact Hlt. }
    exists q. split; [exact Hq |]. apply Item_current; assumption.
  - rewrite Next_end in Hn by (assumption || lia). discriminate.
Qed.

(** With the cursor at the start and a first match that is not loaded:
    the state error, and the table as before. *)
Lemma UnloadPlugin_first_match_not_loaded `{Runtime} `{CatalogedPlugin T}
    (w : world) (pl : T) pre p post s fuel :
  table_ok w -> records_ok w -> currentIter (registry w) = 0%Z ->
  view w = pre ++ p :: post -> no_match pl w pre -> is_match pl w p = true ->
  state_of w p = Some s -> s <> LoadedState -> length pre + 2 <= fuel ->
  exists w', UnloadPlugin fuel w pl = Done (Some InvalidState) w'
             /\ view w' = view w /\ arrays w' = arrays w /\ objects w' = objects w.
Proof.
  intros Ht Hr Hc Hv Hno Hm Hs Hne Hfuel.
  rewrite (UnloadPlugin_first_match w pl 0 pre p post fuel) by assumption.
  rewrite Hs. destruct (String.eqb_spec s LoadedState) as [->|_]; [congruence |].
  cbn [negb]. eexists. split; [reflexivity |]. auto.
Qed.

(** C1, amended. With the cursor at the start, a backed table of plugin
    objects, and the first record that matches the identity in Loaded
    state, [UnloadPlugin] returns nil and removes that record: the table
    shows the other records in their order and is one shorter. *)
Theorem UnloadPlugin_removes_first_match `{Runtime} `{CatalogedPlugin T}
    (w : world) (pl : T) pre p post fuel :
  table_ok w -> records_ok w -> currentIter (registry w) = 0%Z ->
  view w = pre ++ p :: post -> no_match pl w pre -> is_match pl w p = true ->
  state_of w p = Some LoadedState -> length pre + 2 <= fuel ->
  exists w', UnloadPlugin fuel w pl = Done None w'
             /\ view w' = pre ++ post
             /\ length (view w') + 1 = length (view w)
             /\ objects w' = objects w.
Proof.
  intros Ht Hr Hc Hv Hno Hm Hs Hfuel.
  rewrite (UnloadPlugin_first_match w pl 0 pre p post fuel) by assumption.
  rewrite Hs. cbn [negb String.eqb Nat.add]. change (negb ("loaded" =? LoadedState)%string) with false.
  cbn iota. unfold NonblockingSplice.
  set (w1 := with_cursor w _).
  assert (Hlen : length pre < len (table (registry w))).
  { rewrite <- (length_view w Ht), Hv, length_app. simpl. lia. }
  destruct (splice_at w1 (length pre)) as (w2 & Hs2 & Hv2 & _ & Ho & _).
  - apply Ht.
  - exact Hlen.
  - apply succ_no_wrap. destruct Ht as [_ Hmax]. lia.
  - rewrite Hs2. cbn [bind]. exists w2. split; [reflexivity |].
    change (view w1) with (view w) in Hv2. rewrite Hv in Hv2.
    rewrite delete_middle in Hv2. rewrite Hv2, Hv, !length_app. simpl.
    repeat split; [lia | exact Ho].
Qed.

Lemma UnloadPlugin_removes_first_match_witness :
  exists w', UnloadPlugin (H := doubling) 3 three_loaded (a_plugin "b" 1 "") = Done None w'
             /\ view w' = [Some 0] ++ [Some 2]
             /\ length (view w') + 1 = length (view three_loaded)
             /\ objects w' = objects three_loaded.
Proof.
  apply (UnloadPlugin_removes_first_match (H := doubling) three_loaded
           (a_plugin "b" 1 "") [Some 0] (Some 1) [Some 2] 3).
  - solve_table_ok.
  - solve_records_ok.
  - reflexivity.
  - reflexivity.
  - solve_no_match.
  - reflexivity.
  - reflexivity.
  - simpl. lia.
Defined.

(** C1 as stated fails.  In [shadowed] a Loaded record has the identity,
    but a Detected one with the same identity comes first: the state error
    is returned.  In [stale] a Loaded record has the identity, but the
    cursor is past it: the record is not found.  In both no fuel makes the
    call return nil. *)
Lemma UnloadPlugin_keeps_a_loaded_record :
  (Some 1 ∈ view shadowed
   /\ is_match (a_plugin "p" 1 "") shadowed (Some 1) = true
   /\ state_of shadowed (Some 1) = Some LoadedState
   /\ table_ok shadowed /\ records_ok shadowed
   /\ (forall fuel, 2 <= fuel ->
       UnloadPlugin (H := doubling) fuel shadowed (a_plugin "p" 1 "")
       = Done (Some InvalidState) (with_cursor shadowed 2))
   /\ (forall fuel w',
       UnloadPlugin (H := doubling) fuel shadowed (a_plugin "p" 1 "") <> Done None w'))
  /\ (Some 0 ∈ view stale
      /\ is_match (a_plugin "a" 1 "") stale (Some 0) = true
      /\ state_of stale (Some 0) = Some LoadedState
      /\ table_ok stale /\ records_ok stale
      /\ (forall fuel, 3 <= fuel ->
          UnloadPlugin (H := doubling) fuel stale (a_plugin "a" 1 "")
          = Done (Some (PluginNotFound "a" 1)) (with_cursor stale 0))
      /\ (forall fuel w',
          UnloadPlugin (H := doubling) fuel stale (a_plugin "a" 1 "") <> Done None w')).
Proof.
  assert (Ht1 : table_ok shadowed) by solve_table_ok.
  assert (Hr1 : records_ok shadowed) by solve_records_ok.
  assert (Ht2 : table_ok stale) by solve_table_ok.
  assert (Hr2 : records_ok stale) by solve_records_ok.
  assert (H1 : forall fuel, 2 <= fuel ->
            UnloadPlugin (H := doubling) fuel shadowed (a_plugin "p" 1 "")
            = Done (Some InvalidState) (with_cursor shadowed 2)).
  { intros fuel Hfuel.
    rewrite (UnloadPlugin_first_match (H := doubling) shadowed (a_plugin "p" 1 "")
               0 [] (Some 0) [Some 1] fuel); try reflexivity; try assumption.
    solve_no_match. }
  assert (H2 : forall fuel, 3 <= fuel ->
            UnloadPlugin (H := doubling) fuel stale (a_plugin "a" 1 "")
            = Done (Some (PluginNotFound "a" 1)) (with_cursor stale 0)).
  { intros fuel Hfuel.
    rewrite (UnloadPlugin_no_match_from_cursor (H := doubling) stale (a_plugin "a" 1 "") fuel);
      try assumption.
    - reflexivity.
    - unfold cursor_ok, GoInt.max_int. simpl. lia.
    - solve_no_match. }
  split.
  - split; [right; left |]. do 2 (split; [reflexivity |]).
    do 2 (split; [assumption |]). split; [exact H1 |].
    intros fuel w'. destruct fuel as [|[|fuel]]; [discriminate | discriminate |].
    rewrite H1 by lia. discriminate.
  - split; [left |]. do 2 (split; [reflexivity |]).
    do 2 (split; [assumption |]). split; [exact H2 |].
    intros fuel w'. destruct fuel as [|[|[|fuel]]]; [discriminate.. |].
    rewrite H2 by lia. discriminate.
Qed.

(** C6. On a backed table of plugin objects none of which matches the
    identity, and with enough fuel for one pass, [UnloadPlugin] returns
    the not-found error, whose message contains the name and the version
    of the identity, and the table, its array and the plugin objects are
    as before. *)
Theorem UnloadPlugin_absent `{Runtime} `{CatalogedPlugin T}
    (w : world) (pl : T) (fuel : nat) :
  table_ok w -> records_ok w -> cursor_ok w ->
  no_match pl w (view w) -> length (view w) < fuel ->
  exists w', UnloadPlugin fuel w pl
             = Done (Some (PluginNotFound (Name pl) (Version pl))) w'
             /\ (exists pre mid post,
                  PluginNotFound (Name pl) (Version pl)
                  = pre +:+ Name pl +:+ mid +:+ Itoa (Version pl) +:+ post)
             /\ view w' = view w
             /\ length (view w') = length (view w)
             /\ arrays w' = arrays w
             /\ table (registry w') = table (registry w)
             /\ objects w' = objects w.
Proof.
  intros Ht Hr Hc Hno Hfuel. exists (with_cursor w 0). split.
  - apply UnloadPlugin_no_match_from_cursor; try assumption.
    apply Forall_drop. exact Hno.
  - split; [| auto].
    exists "plugin [", "] -- [", "] not found (has it already been unloaded?)".
    reflexivity.
Qed.

Lemma UnloadPlugin_absent_witness :
  exists w', UnloadPlugin (H := doubling) 4 three_loaded (a_plugin "d" 1 "")
             = Done (Some (PluginNotFound "d" 1)) w'
             /\ (exists pre mid post,
                  PluginNotFound "d" 1 = pre +:+ "d" +:+ mid +:+ Itoa 1 +:+ post)
             /\ view w' = view three_loaded
             /\ length (view w') = length (view three_loaded)
             /\ arrays w' = arrays three_loaded
             /\ table (registry w') = table (registry three_loaded)
             /\ objects w' = objects three_loaded.
Proof.
  refine (UnloadPlugin_absent (H := doubling) three_loaded (a_plugin "d" 1 "") 4 _ _ _ _ _).
  - solve_table_ok.
  - solve_records_ok.
  - unfold cursor_ok, GoInt.max_int. simpl. lia.
  - solve_no_match.
  - simpl. lia.
Defined.

(** C7, where the code departs from it.  From [four_entries], with the
    cursor at the start, unloading x leaves the cursor at 2.  The first
    record that then matches (p, 1) is at index 1 and is Detected, not
    Loaded; yet unloading (p, 1) returns nil and removes the Loaded record
    at index 2 that comes after it. *)
Theorem UnloadPlugin_stale_cursor_skips_first_match :
  exists w1 w2,
    UnloadPlugin (H := doubling) 5 four_entries (a_plugin "x" 1 "") = Done None w1
    /\ view w1 = [Some 1] ++ Some 2 :: [Some 3]
    /\ currentIter (registry w1) = 2%Z
    /\ no_match (a_plugin "p" 1 "") w1 [Some 1]
    /\ is_match (a_plugin "p" 1 "") w1 (Some 2) = true
    /\ state_of w1 (Some 2) = Some DetectedState
    /\ UnloadPlugin (H := doubling) 5 w1 (a_plugin "p" 1 "") = Done None w2
    /\ view w2 = [Some 1; Some 2].
Proof.
  do 2 eexists. split; [vm_compute; reflexivity |].
  do 2 (split; [reflexivity |]). split; [solve_no_match |].
  do 2 (split; [reflexivity |]). split; [vm_compute; reflexivity | reflexivity].
Qed.

(** C9. When the first match from the cursor on is before the last
    position of the table, [UnloadPlugin] returns, with nil or with the
    state error, and leaves the cursor two past the index of the match,
    not at zero.  The next scan starts there: if its first call of [Next]
    returns true, [Item] is at the index that equals the cursor left
    behind, so the positions before it are not visited. *)
Theorem UnloadPlugin_leaves_cursor `{Runtime} `{CatalogedPlugin T}
    (w : world) (pl : T) (c : nat) pre p post fuel :
  table_ok w -> records_ok w -> currentIter (registry w) = Z.of_nat c ->
  drop c (view w) = pre ++ p :: post -> no_match pl w pre -> is_match pl w p = true ->
  post <> [] -> length pre + 2 <= fuel ->
  exists e w', UnloadPlugin fuel w pl = Done e w'
    /\ currentIter (registry w') = Z.of_nat (c + length pre + 2)
    /\ currentIter (registry w') <> 0%Z
    /\ (forall w'', Next w' = Done true w'' ->
        exists q, view w' !! (c + length pre + 2) = Some q
                  /\ Item w'' = Done (Z.of_nat (c + length pre + 2), q) w'').
Proof.
  intros Ht Hr Hc Hv Hno Hm Hpost Hfuel.
  rewrite (UnloadPlugin_first_match w pl c pre p post fuel) by assumption.
  destruct post as [|q post]; [congruence |].
  set (w1 := with_cursor w (Z.of_nat (c + length pre + 2))).
  assert (Hlen : c + length pre + 2 <= len (table (registry w))).
  { assert (Hd : length (drop c (view w)) = length pre + S (S (length post))).
    { rewrite Hv, length_app. reflexivity. }
    rewrite length_drop, (length_view w Ht) in Hd. lia. }
  assert (Hmax : (Z.of_nat (c + length pre + 2) < GoInt.max_int)%Z).
  { destruct Ht as [_ Hmax]. lia. }
  assert (Hfin : forall (e : error) w', slice_ok (arrays w') (table (registry w')) ->
            currentIter (registry w') = Z.of_nat (c + length pre + 2) ->
            exists e0 w0, Done e w' = Done e0 w0
              /\ currentIter (registry w0) = Z.of_nat (c + length pre + 2)
              /\ currentIter (registry w0) <> 0%Z
              /\ (forall w'', Next w0 = Done true w'' ->
                  exists q0, view w0 !! (c + length pre + 2) = Some q0
                    /\ Item w'' = Done (Z.of_nat (c + length pre + 2), q0) w'')).
  { intros e w' Hok' Hc'. exists e, w'. split; [reflexivity |].
    split; [exact Hc' |]. split; [rewrite Hc'; lia |].
    intros w'' Hn. exact (Next_then_Item w' _ w'' Hok' Hc' Hmax Hn). }
  destruct (is_match_deref pl w p Hm) as [s Hs]. rewrite Hs.
  destruct (negb (s =? LoadedState)%string).
  - apply Hfin; [apply Ht | reflexivity].
  - unfold NonblockingSplice.
    destruct (splice_at w1 (c + length pre)) as (w2 & Hs2 & _ & Hok2 & _ & Hc2 & _).
    + apply Ht.
    + change (table (registry w1)) with (table (registry w)). lia.
    + apply succ_no_wrap. lia.
    + rewrite Hs2. cbn [bind]. apply Hfin; [exact Hok2 | exact Hc2].
Qed.

Lemma UnloadPlugin_leaves_cursor_witness :
  exists e w', UnloadPlugin (H := doubling) 2 three_loaded (a_plugin "a" 1 "") = Done e w'
    /\ currentIter (registry w') = Z.of_nat (0 + length (@nil ptr) + 2)
    /\ currentIter (registry w') <> 0%Z
    /\ (forall w'', Next w' = Done true w'' ->
        exists q, view w' !! (0 + length (@nil ptr) + 2) = Some q
                  /\ Item w'' = Done (Z.of_nat (0 + length (@nil ptr) + 2), q) w'').
Proof.
  apply (UnloadPlugin_leaves_cursor (H := doubling) three_loaded
           (a_plugin "a" 1 "") 0 [] (Some 0) [Some 1; Some 2] 2).
  - solve_table_ok.
  - solve_records_ok.
  - reflexivity.
  - reflexivity.
  - solve_no_match.
  - reflexivity.
  - discriminate.
  - simpl. lia.
Defined.

(** ** LoadPlugin: claims *)

(** C8. When the plugin answers with a state other than success,
    [LoadPlugin] returns the rejection error, which carries the message of
    the plugin, and the table is as before: the record is not appended.
    A failure to spawn, to start or to wait returns the error of the
    launcher.  Whenever [LoadPlugin] returns an error, the registry, its
    array and so the length of the table are as before. *)
Theorem LoadPlugin_failure_keeps_registry `{Runtime}
    (L : Launcher) (w : world) (path : string) :
  (forall ePlugin resp,
     NewExecutablePlugin L (generateArgs (manager w) false) path false = inl ePlugin ->
     Start L ePlugin = None ->
     WaitForResponse L ePlugin (Second * 3) = inl resp ->
     plugin.State resp <> plugin.PluginSuccess ->
     exists w', LoadPlugin L w path
                = Done (Some (HandshakeRejected (plugin.ErrorMessage resp))) w'
                /\ (exists pre post,
                     HandshakeRejected (plugin.ErrorMessage resp)
                     = pre +:+ plugin.ErrorMessage resp +:+ post)
                /\ view w' = view w)
  /\ (forall err,
        NewExecutablePlugin L (generateArgs (manager w) false) path false = inr err ->
        exists w', LoadPlugin L w path = Done (Some err) w')
  /\ (forall ePlugin err,
        NewExecutablePlugin L (generateArgs (manager w) false) path false = inl ePlugin ->
        Start L ePlugin = Some err ->
        exists w', LoadPlugin L w path = Done (Some err) w')
  /\ (forall ePlugin err,
        NewExecutablePlugin L (generateArgs (manager w) false) path false = inl ePlugin ->
        Start L ePlugin = None ->
        WaitForResponse L ePlugin (Second * 3) = inr err ->
        exists w', LoadPlugin L w path = Done (Some err) w')
  /\ (forall e w',
        LoadPlugin L w path = Done (Some e) w' ->
        registry w' = registry w /\ arrays w' = arrays w
        /\ view w' = view w /\ length (view w') = length (view w)).
Proof.
  repeat apply conj.
  - intros ePlugin resp Hn Hs Hw Hst. unfold LoadPlugin.
    change (manager (set_objects w _)) with (manager w). cbn [Path].
    rewrite Hn, Hs, Hw. rewrite bool_decide_eq_false_2 by exact Hst. cbn [negb].
    eexists. split; [reflexivity |]. split; [| reflexivity].
    exists "Plugin loading did not succeed: ", newline. reflexivity.
  - intros err Hn. unfold LoadPlugin.
    change (manager (set_objects w _)) with (manager w). cbn [Path].
    rewrite Hn. eauto.
  - intros ePlugin err Hn Hs. unfold LoadPlugin.
    change (manager (set_objects w _)) with (manager w). cbn [Path].
    rewrite Hn, Hs. eauto.
  - intros ePlugin err Hn Hs Hw. unfold LoadPlugin.
    change (manager (set_objects w _)) with (manager w). cbn [Path].
    rewrite Hn, Hs, Hw. eauto.
  - intros e w' Hl. apply LoadPlugin_error in Hl as [Ha Hr].
    unfold view. rewrite Ha, Hr. auto.
Qed.

Lemma LoadPlugin_failure_keeps_registry_witness :
  exists w', LoadPlugin (H := doubling) (responding (rejection "bad config"))
               newPluginManager "/bin/collector-v1"
             = Done (Some (HandshakeRejected "bad config")) w'
             /\ (exists pre post,
                  HandshakeRejected "bad config" = pre +:+ "bad config" +:+ post)
             /\ view w' = view newPluginManager.
Proof.
  refine (proj1 (LoadPlugin_failure_keeps_registry (H := doubling)
            (responding (rejection "bad config")) newPluginManager "/bin/collector-v1")
            0 (rejection "bad config") _ _ _ _).
  - reflexivity.
  - reflexivity.
  - reflexivity.
  - discriminate.
Defined.

(** ** Reachable states: claims *)

(** C2, amended. In every state reached from a new manager by calls of
    Append, Get, Splice, NonblockingSplice, LoadPlugin and UnloadPlugin
    that return, no record reference occurs twice in the table. *)
Theorem reachable_references_unique `{Runtime} (w : world) :
  reachable w -> NoDup (view w).
Proof. intros Hr. apply reachable_invariant. exact Hr. Qed.

Lemma reachable_references_unique_witness : NoDup (view two_collectors).
Proof.
  apply (reachable_references_unique (H := doubling) two_collectors).
  apply two_collectors_reachable.
Defined.

(** C2 as stated fails: two loads whose plugins report the same name and
    version both succeed, and the table then holds two Loaded records with
    one identity. *)
Lemma two_loads_share_an_identity :
  reachable (H := doubling) two_collectors /\ ~ key_unique two_collectors.
Proof.
  split; [apply two_collectors_reachable |].
  intros Hk.
  specialize (Hk 0 1 (Some 0) (Some 1) _ _ eq_refl eq_refl eq_refl eq_refl).
  assert (Hne : 0 <> 1) by discriminate.
  apply Hne, Hk; try reflexivity; discriminate.
Qed.

(** ** Snapshots: claims *)

Lemma go_append_keeps `{Runtime} h s xs h' s' :
  slice_ok h s -> go_append h s xs = (h', s') -> elems h' s = elems h s.
Proof.
  intros (Harr & Hlen & Hcap) Happ. unfold go_append in Happ.
  case_bool_decide; inversion Happ; subst; clear Happ; unfold elems, backing.
  - rewrite list_lookup_insert_eq by exact Harr. simpl. fold (backing h s).
    apply list_eq. intros j. rewrite !lookup_take.
    destruct (decide (j < len s)); [| reflexivity].
    rewrite !lookup_drop. apply list_lookup_inserts_lt. lia.
  - rewrite lookup_app_l by exact Harr. reflexivity.
Qed.

(** A snapshot of the table as it is shows the same records after an
    [Append]. *)
Lemma Table_snapshot_kept_by_Append `{Runtime} w lp e w' :
  slice_ok (arrays w) (table (registry w)) ->
  Append w lp = Done e w' ->
  elems (arrays w') (Table w) = elems (arrays w) (Table w).
Proof.
  intros Hok Ha. unfold Append in Ha.
  destruct (range_find lp 0 _); [inversion Ha; reflexivity |].
  destruct (go_append (arrays w) (table (registry w)) [lp]) as [h s] eqn:Happ.
  inversion Ha; subst. simpl. eapply go_append_keeps; eassumption.
Qed.

(** C3, where the code departs from it.  [Table] returns the header of the
    live table, which shares its array, and [splice] moves the later
    records down inside that array.  A snapshot of the three loaded
    plugins shows, after [Splice] at 0, the second record at position 0
    and the third at positions 1 and 2. *)
Theorem Table_snapshot_changed_by_Splice :
  let snapshot := Table three_loaded in
  exists w', Splice (H := doubling) three_loaded 0 = Done tt w'
    /\ elems (arrays three_loaded) snapshot = [Some 0; Some 1; Some 2]
    /\ elems (arrays w') snapshot = [Some 1; Some 2; Some 2]
    /\ index (arrays three_loaded) snapshot 0 = Some (Some 0)
    /\ index (arrays w') snapshot 0 = Some (Some 1).
Proof.
  eexists. split; [vm_compute; reflexivity |]. repeat split.
Qed.

(** ** The table: further properties *)


Lemma splice_result `{Runtime} w i :
  (exists w', splice w i = Done tt w') \/ splice w i = Panic.
Proof.
  unfold splice.
  destruct (slice_to _ _); [| right; reflexivity].
  destruct (slice_from _ _); [| right; reflexivity].
  destruct (go_append _ _ _). left. eauto.
Qed.

(** X1. After an [Append] that stores a new reference, [Get] at the old
    length returns that reference, and [Get] at every earlier index returns
    the record it returned before. *)
Theorem Append_then_Get `{Runtime} (w : world) (lp : ptr) :
  slice_ok (arrays w) (table (registry w)) -> lp ∉ view w ->
  exists w', Append w lp = Done None w'
    /\ Get w' (Z.of_nat (length (view w))) = Done (lp, None) w'
    /\ (forall i p, Get w i = Done (p, None) w -> Get w' i = Done (p, None) w').
Proof.
  intros Hok Hnot.
  destruct (Append_fresh w lp Hok Hnot) as (w' & Ha & Hv & Hok' & _).
  pose proof (length_elems _ _ Hok) as Hl. fold (view w) in Hl.
  pose proof (length_elems _ _ Hok') as Hl'. fold (view w') in Hl'.
  rewrite Hv, length_app in Hl'. simpl in Hl'.
  exists w'. split; [exact Ha |]. split.
  - destruct (Get_within w' (Z.of_nat (length (view w))) Hok') as (p & Hp & Hg); [lia |].
    rewrite Nat2Z.id, Hv, lookup_app_r, Nat.sub_diag in Hp by lia.
    inversion Hp; subst. exact Hg.
  - intros i p Hg.
    destruct (decide (i < 0)%Z) as [Hneg|Hpos].
    { rewrite Get_negative in Hg by exact Hneg. discriminate. }
    destruct (decide (i < Z.of_nat (len (table (registry w))))%Z) as [Hlt|Hge].
    + destruct (Get_within w i Hok) as (q & Hq & Hgq); [lia |].
      rewrite Hgq in Hg. inversion Hg; subst.
      destruct (Get_within w' i Hok') as (q & Hq' & Hgq'); [lia |].
      rewrite Hv, lookup_app_l in Hq' by lia. congruence.
    + rewrite Get_above in Hg by lia. discriminate.
Qed.

Lemma Append_then_Get_witness :
  exists w', Append (H := doubling) three_loaded None = Done None w'
    /\ Get w' (Z.of_nat (length (view three_loaded))) = Done (None, None) w'
    /\ (forall i p, Get three_loaded i = Done (p, None) three_loaded ->
        Get w' i = Done (p, None) w').
Proof.
  apply (Append_then_Get (H := doubling) three_loaded None).
  - unfold slice_ok. simpl. lia.
  - change (view three_loaded) with [Some 0; Some 1; Some 2].
    repeat (apply not_elem_of_cons; split; [discriminate |]). apply not_elem_of_nil.
Defined.

(** X2. On a backed table shorter than the largest [int], [Splice] at an
    index from 0 to the length minus one removes the entry at that index,
    keeps the others in order and leaves the cursor and the plugin objects
    alone; at any other index it panics. *)
Theorem Splice_in_and_out_of_range `{Runtime} (w : world) (i : Z) :
  table_ok w -> is_int i ->
  ((0 <= i < Z.of_nat (length (view w)))%Z ->
   exists w', Splice w i = Done tt w'
     /\ view w' = delete (Z.to_nat i) (view w)
     /\ length (view w') + 1 = length (view w)
     /\ currentIter (registry w') = currentIter (registry w)
     /\ objects w' = objects w)
  /\ (~ (0 <= i < Z.of_nat (length (view w)))%Z -> Splice w i = Panic).
Proof.
  intros [Hok Hmax] Hint.
  pose proof (length_elems _ _ Hok) as Hl. fold (view w) in Hl. rewrite Hl.
  unfold Splice. split.
  - intros Hi.
    destruct (splice_at w (Z.to_nat i) Hok) as (w' & Hs & Hv & Hok' & Ho & Hc & Hlen).
    + lia.
    + apply succ_no_wrap. lia.
    + rewrite Z2Nat.id in Hs by lia. exists w'. split; [exact Hs |].
      pose proof (length_elems _ _ Hok') as Hl'. fold (view w') in Hl'.
      repeat split; try assumption. lia.
  - intros Hout. destruct (splice_result w i) as [[w' Hs]|Hp]; [| exact Hp].
    apply splice_inv in Hs as [Hr _]; [contradiction | exact Hint | exact Hok].
Qed.

Lemma Splice_in_and_out_of_range_witness :
  (exists w', Splice (H := doubling) three_loaded 1 = Done tt w'
     /\ view w' = delete (Z.to_nat 1) (view three_loaded)
     /\ length (view w') + 1 = length (view three_loaded)
     /\ currentIter (registry w') = currentIter (registry three_loaded)
     /\ objects w' = objects three_loaded)
  /\ Splice (H := doubling) three_loaded 3 = Panic.
Proof.
  assert (Ht : table_ok three_loaded) by solve_table_ok.
  split.
  - apply (Splice_in_and_out_of_range (H := doubling) three_loaded 1 Ht).
    + unfold is_int, GoInt.min_int, GoInt.max_int. lia.
    + simpl. lia.
  - apply (Splice_in_and_out_of_range (H := doubling) three_loaded 3 Ht).
    + unfold is_int, GoInt.min_int, GoInt.max_int. lia.
    + simpl. lia.
Defined.

(** X3. After [Splice] at index n, [Get] below n returns what it returned
    before, [Get] from n on returns what it returned one position later,
    and [Get] at the old last index returns the index-out-of-range error. *)
Theorem Splice_then_Get `{Runtime} (w : world) (n : nat) :
  table_ok w -> n < length (view w) ->
  exists w', Splice w (Z.of_nat n) = Done tt w'
    /\ (forall i p, i < n -> view w !! i = Some p ->
        Get w' (Z.of_nat i) = Done (p, None) w')
    /\ (forall i p, n <= i -> view w !! S i = Some p ->
        Get w' (Z.of_nat i) = Done (p, None) w')
    /\ Get w' (Z.of_nat (length (view w)) - 1)
       = Done (None, Some IndexOutOfRange) w'.
Proof.
  intros [Hok Hmax] Hn.
  pose proof (length_elems _ _ Hok) as Hl. fold (view w) in Hl.
  destruct (splice_at w n Hok) as (w' & Hs & Hv & Hok' & _ & _ & Hlen).
  - lia.
  - apply succ_no_wrap. lia.
  - exists w'. split; [exact Hs |].
    assert (Hget : forall i p, view w' !! i = Some p ->
              Get w' (Z.of_nat i) = Done (p, None) w').
    { intros i p Hp. pose proof (lookup_lt_Some _ _ _ Hp) as Hi.
      unfold view in Hi. rewrite (length_elems _ _ Hok') in Hi.
      destruct (Get_within w' (Z.of_nat i) Hok') as (q & Hq & Hg); [lia |].
      rewrite Nat2Z.id in Hq. congruence. }
    repeat split.
    + intros i p Hi Hp. apply Hget. rewrite Hv, list_lookup_delete_lt by exact Hi. exact Hp.
    + intros i p Hi Hp. apply Hget. rewrite Hv, list_lookup_delete_ge by exact Hi. exact Hp.
    + apply Get_above. lia.
Qed.

Lemma Splice_then_Get_witness :
  exists w', Splice (H := doubling) three_loaded (Z.of_nat 0) = Done tt w'
    /\ (forall i p, i < 0 -> view three_loaded !! i = Some p ->
        Get w' (Z.of_nat i) = Done (p, None) w')
    /\ (forall i p, 0 <= i -> view three_loaded !! S i = Some p ->
        Get w' (Z.of_nat i) = Done (p, None) w')
    /\ Get w' (Z.of_nat (length (view three_loaded)) - 1)
       = Done (None, Some IndexOutOfRange) w'.
Proof.
  apply (Splice_then_Get (H := doubling) three_loaded 0).
  - solve_table_ok.
  - simpl. lia.
Defined.

(** The array after [splice]: the later records are copied one slot down
    inside the array of the table. *)
Lemma splice_arrays `{Runtime} w (n : nat) :
  slice_ok (arrays w) (table (registry w)) ->
  n < len (table (registry w)) ->
  GoInt.add (Z.of_nat n) 1 = Z.of_nat (S n) ->
  let t := table (registry w) in
  exists w', splice w (Z.of_nat n) = Done tt w'
    /\ table (registry w')
       = {| arr := arr t; off := off t; len := len t - 1; cap := cap t |}
    /\ arrays w'
       = <[arr t := list_inserts (off t + n) (drop (S n) (view w))
                      (backing (arrays w) t)]> (arrays w).
Proof.
  intros Hok Hn Hadd t. pose proof Hok as (Harr & Hlen & Hcap). fold t in Harr, Hlen, Hcap.
  pose proof (length_elems _ _ Hok) as Hl. fold (view w) in Hl. fold t in Hl, Hn.
  unfold splice. fold t. rewrite Hadd. unfold slice_to, slice_from.
  rewrite !bool_decide_eq_true_2 by lia. rewrite !Nat2Z.id.
  assert (Heb : elems (arrays w)
                  {| arr := arr t; off := off t + S n; len := len t - S n; cap := cap t - S n |}
                = drop (S n) (view w)).
  { unfold view, elems. fold t. simpl. unfold backing at 1. simpl. fold (backing (arrays w) t).
    rewrite <- drop_drop, take_drop_commute.
    replace (S n + (len t - S n)) with (len t) by lia. reflexivity. }
  rewrite Heb. rewrite go_append_in_place by (simpl; rewrite length_drop; lia).
  simpl. eexists. split; [reflexivity |]. split.
  - simpl. f_equal. rewrite length_drop. lia.
  - reflexivity.
Qed.

(** X4. [Splice] at index n works inside the array of the table: nothing
    is allocated, and a snapshot taken by [Table] before the call shows
    afterwards the entries of the new table followed by the old last
    entry, which the array still holds. *)
Theorem Splice_shifts_inside_the_array `{Runtime} (w : world) (n : nat) (p : ptr) :
  table_ok w -> n < length (view w) -> last (view w) = Some p ->
  exists w', Splice w (Z.of_nat n) = Done tt w'
    /\ length (arrays w') = length (arrays w)
    /\ arr (Table w') = arr (Table w)
    /\ cap (Table w') = cap (Table w)
    /\ elems (arrays w') (Table w) = view w' ++ [p].
Proof.
  intros [Hok Hmax] Hn Hlast.
  pose proof (length_elems _ _ Hok) as Hl. fold (view w) in Hl.
  pose proof Hok as (Harr & Hlen & Hcap).
  destruct (splice_arrays w n Hok) as (w' & Hs & Ht & Ha); [lia | apply succ_no_wrap; lia |].
  destruct (splice_at w n Hok) as (w2 & Hs2 & Hv & _); [lia | apply succ_no_wrap; lia |].
  rewrite Hs in Hs2. inversion Hs2; subst w2. clear Hs2.
  exists w'. split; [exact Hs |]. unfold Table. rewrite Ht. simpl.
  split; [rewrite Ha; apply length_insert |]. do 2 (split; [reflexivity |]).
  rewrite last_lookup, Hl in Hlast.
  assert (Hl' : length (view w') = len (table (registry w)) - 1).
  { rewrite Hv, length_delete by (apply lookup_lt_is_Some_2; exact Hn). rewrite Hl. lia. }
  set (t := table (registry w)) in *.
  unfold elems at 1, backing at 1. rewrite Ha.
  rewrite list_lookup_insert_eq by exact Harr. simpl.
  apply list_eq. intros j. rewrite lookup_take, lookup_drop.
  destruct (decide (j < len t)) as [Hj|Hj].
  - destruct (decide (j < n)) as [Hjn|Hjn].
    + rewrite list_lookup_inserts_lt by lia.
      rewrite lookup_app_l by (rewrite Hl'; lia).
      rewrite Hv, list_lookup_delete_lt by exact Hjn.
      symmetry. apply elems_lookup. exact Hj.
    + destruct (decide (j < len t - 1)) as [Hjl|Hjl].
      * rewrite list_lookup_inserts by (rewrite ?length_drop, ?Hl; lia).
        rewrite lookup_app_l by (rewrite Hl'; lia).
        rewrite Hv, list_lookup_delete_ge by lia.
        rewrite lookup_drop. f_equal. lia.
      * rewrite list_lookup_inserts_ge by (rewrite ?length_drop, ?Hl; lia).
        rewrite lookup_app_r by (rewrite Hl'; lia).
        rewrite Hl'. replace (j - (len t - 1)) with 0 by lia. simpl.
        rewrite <- Hlast. replace (Nat.pred (len t)) with j by lia.
        symmetry. apply elems_lookup. exact Hj.
  - symmetry. apply lookup_ge_None. rewrite length_app, Hl'. simpl. lia.
Qed.

Lemma Splice_shifts_inside_the_array_witness :
  exists w', Splice (H := doubling) three_loaded (Z.of_nat 0) = Done tt w'
    /\ length (arrays w') = length (arrays three_loaded)
    /\ arr (Table w') = arr (Table three_loaded)
    /\ cap (Table w') = cap (Table three_loaded)
    /\ elems (arrays w') (Table three_loaded) = view w' ++ [Some 2].
Proof.
  apply (Splice_shifts_inside_the_array (H := doubling) three_loaded 0 (Some 2)).
  - solve_table_ok.
  - simpl. lia.
  - reflexivity.
Defined.

Lemma Table_snapshot_kept_by_LoadPlugin `{Runtime} L w path e w' :
  slice_ok (arrays w) (table (registry w)) ->
  LoadPlugin L w path = Done e w' ->
  elems (arrays w') (Table w) = elems (arrays w) (Table w).
Proof.
  intros Hok Hl. unfold LoadPlugin in Hl.
  destruct (NewExecutablePlugin L _ _ _) as [ePlugin|err]; [| inversion Hl; reflexivity].
  destruct (Start L ePlugin) as [err|]; [inversion Hl; reflexivity |].
  destruct (WaitForResponse L ePlugin _) as [resp|err]; [| inversion Hl; reflexivity].
  destruct (negb _); [inversion Hl; reflexivity |].
  match type of Hl with context [Append ?x ?p] =>
    destruct (Append x p) as [e1 w3| |] eqn:Ha end; cbn [bind] in Hl; try discriminate.
  apply Table_snapshot_kept_by_Append in Ha; [| exact Hok].
  destruct e1; inversion Hl; subst; exact Ha.
Qed.

(** X5. A snapshot that [Table] takes of a backed table shows the same
    records after a following [Append] or [LoadPlugin], whatever these
    return: they write the array past the length of the snapshot, or move
    the table to a new array. *)
Theorem Table_snapshot_kept_by_growth `{Runtime} (w : world) :
  slice_ok (arrays w) (table (registry w)) ->
  (forall lp e w', Append w lp = Done e w' ->
     elems (arrays w') (Table w) = elems (arrays w) (Table w))
  /\ (forall L path e w', LoadPlugin L w path = Done e w' ->
        elems (arrays w') (Table w) = elems (arrays w) (Table w)).
Proof.
  intros Hok. split.
  - intros lp e w' Ha. eapply Table_snapshot_kept_by_Append; eassumption.
  - intros L path e w' Hl. eapply Table_snapshot_kept_by_LoadPlugin; eassumption.
Qed.

Lemma Table_snapshot_kept_by_growth_witness :
  (forall lp e w', Append (H := doubling) three_loaded lp = Done e w' ->
     elems (arrays w') (Table three_loaded)
     = elems (arrays three_loaded) (Table three_loaded))
  /\ (forall L path e w', LoadPlugin (H := doubling) L three_loaded path = Done e w' ->
        elems (arrays w') (Table three_loaded)
        = elems (arrays three_loaded) (Table three_loaded)).
Proof.
  apply (Table_snapshot_kept_by_growth (H := doubling) three_loaded).
  unfold slice_ok. simpl. lia.
Defined.

(** ** The cursor: further properties *)

(** X6. On a backed table shorter than the largest [int], [Item] returns
    exactly when the cursor is from 1 to the length of the table, and then
    gives the index cursor minus one with the record there, changing
    nothing; with the cursor at 0, as in a new registry or after a scan
    that reached the end, or past the length, it panics. *)
Theorem Item_needs_a_visited_position (w : world) :
  table_ok w -> is_int (currentIter (registry w)) ->
  ((1 <= currentIter (registry w) <= Z.of_nat (length (view w)))%Z ->
   exists p, view w !! Z.to_nat (currentIter (registry w) - 1) = Some p
             /\ Item w = Done ((currentIter (registry w) - 1)%Z, p) w)
  /\ (~ (1 <= currentIter (registry w) <= Z.of_nat (length (view w)))%Z ->
      Item w = Panic).
Proof.
  intros [Hok Hmax] Hint.
  pose proof (length_elems _ _ Hok) as Hl. fold (view w) in Hl. rewrite Hl.
  set (c := currentIter (registry w)) in *.
  unfold is_int, GoInt.min_int, GoInt.max_int in *. split.
  - intros Hc. unfold Item. fold c.
    assert (Hsub : GoInt.sub c 1 = (c - 1)%Z).
    { unfold GoInt.sub. apply wrap_in_range.
      unfold is_int, GoInt.min_int, GoInt.max_int. lia. }
    rewrite Hsub. unfold index. rewrite bool_decide_eq_true_2 by lia. fold (view w).
    destruct (lookup_lt_is_Some_2 (view w) (Z.to_nat (c - 1))) as [p Hp]; [lia |].
    rewrite Hp. eauto.
  - intros Hc. unfold Item. fold c. unfold index.
    rewrite bool_decide_eq_false_2; [reflexivity |].
    destruct (decide (c = - 2 ^ 63)%Z) as [->|Hne].
    + change (GoInt.sub (- 2 ^ 63) 1) with (2 ^ 63 - 1)%Z. lia.
    + unfold GoInt.sub. rewrite wrap_in_range
        by (unfold is_int, GoInt.min_int, GoInt.max_int; lia). lia.
Qed.

Lemma Item_needs_a_visited_position_witness :
  (exists p, view stale !! Z.to_nat (currentIter (registry stale) - 1) = Some p
             /\ Item stale = Done ((currentIter (registry stale) - 1)%Z, p) stale)
  /\ Item three_loaded = Panic.
Proof.
  split.
  - apply (Item_needs_a_visited_position stale).
    + solve_table_ok.
    + unfold is_int, GoInt.min_int, GoInt.max_int. simpl. lia.
    + simpl. lia.
  - apply (Item_needs_a_visited_position three_loaded).
    + solve_table_ok.
    + unfold is_int, GoInt.min_int, GoInt.max_int. simpl. lia.
    + simpl. lia.
Defined.

(** X7. On a backed table with the cursor c at or past 0: while c is
    below the length, [Next] returns true and moves the cursor to c+1, and
    [Item] then gives index c with the record there; once c has reached the
    length, [Next] returns false and puts the cursor back to 0. *)
Theorem Next_then_Item_in_order (w : world) :
  table_ok w -> cursor_ok w ->
  ((currentIter (registry w) < Z.of_nat (length (view w)))%Z ->
   exists p, view w !! Z.to_nat (currentIter (registry w)) = Some p
     /\ Next w = Done true (with_cursor w (currentIter (registry w) + 1))
     /\ Item (with_cursor w (currentIter (registry w) + 1))
        = Done (currentIter (registry w), p)
               (with_cursor w (currentIter (registry w) + 1)))
  /\ ((Z.of_nat (length (view w)) <= currentIter (registry w))%Z ->
      Next w = Done false (with_cursor w 0)).
Proof.
  intros [Hok Hmax] Hc.
  pose proof (length_elems _ _ Hok) as Hl. fold (view w) in Hl. rewrite Hl.
  unfold cursor_ok in Hc. set (c := currentIter (registry w)) in *.
  assert (Hk : c = Z.of_nat (Z.to_nat c)) by lia.
  assert (Hw : w = with_cursor w (Z.of_nat (Z.to_nat c))).
  { rewrite <- Hk. symmetry. apply with_cursor_id. }
  split.
  - intros Hlt.
    destruct (lookup_lt_is_Some_2 (view w) (Z.to_nat c)) as [p Hp]; [lia |].
    exists p. split; [exact Hp |].
    replace (c + 1)%Z with (Z.of_nat (S (Z.to_nat c))) by lia. split.
    + rewrite Hw at 1. apply Next_more; lia.
    + rewrite Hk at 2. apply Item_current; [exact Hp | lia].
  - intros Hge. rewrite Hw at 1. apply Next_end; lia.
Qed.

Lemma Next_then_Item_in_order_witness :
  (exists p, view three_loaded !! Z.to_nat (currentIter (registry three_loaded)) = Some p
     /\ Next three_loaded
        = Done true (with_cursor three_loaded (currentIter (registry three_loaded) + 1))
     /\ Item (with_cursor three_loaded (currentIter (registry three_loaded) + 1))
        = Done (currentIter (registry three_loaded), p)
               (with_cursor three_loaded (currentIter (registry three_loaded) + 1)))
  /\ Next stale = Done false (with_cursor stale 0).
Proof.
  split.
  - apply (Next_then_Item_in_order three_loaded).
    + solve_table_ok.
    + unfold cursor_ok, GoInt.max_int. simpl. lia.
    + simpl. lia.
  - apply (Next_then_Item_in_order stale).
    + solve_table_ok.
    + unfold cursor_ok, GoInt.max_int. simpl. lia.
    + simpl. lia.
Defined.

(** ** UnloadPlugin: further properties *)

Lemma deref_objects w w' p : objects w' = objects w -> deref w' p = deref w p.
Proof. intros Ho. unfold deref. rewrite Ho. reflexivity. Qed.

Lemma is_match_objects `{CatalogedPlugin T} (pl : T) w w' p :
  objects w' = objects w -> is_match pl w' p = is_match pl w p.
Proof. intros Ho. unfold is_match. rewrite (deref_objects w w' p Ho). reflexivity. Qed.

(** With the cursor at [c] and the first match from there on in Loaded
    state: the record is removed, and the cursor stays behind unless the
    match was the last entry. *)
Lemma UnloadPlugin_first_match_loaded `{Runtime} `{CatalogedPlugin T}
    (w : world) (pl : T) (c : nat) pre p post fuel :
  table_ok w -> records_ok w -> currentIter (registry w) = Z.of_nat c ->
  drop c (view w) = pre ++ p :: post -> no_match pl w pre -> is_match pl w p = true ->
  state_of w p = Some LoadedState -> length pre + 2 <= fuel ->
  exists w', UnloadPlugin fuel w pl = Done None w'
    /\ view w' = take c (view w) ++ pre ++ post
    /\ objects w' = objects w
    /\ slice_ok (arrays w') (table (registry w'))
    /\ len (table (registry w')) = len (table (registry w)) - 1
    /\ currentIter (registry w')
       = match post with
         | [] => 0%Z
         | _ :: _ => Z.of_nat (c + length pre + 2)
         end.
Proof.
  intros Ht Hr Hc Hv Hno Hm Hs Hfuel.
  rewrite (UnloadPlugin_first_match w pl c pre p post fuel) by assumption.
  rewrite Hs. change (negb (LoadedState =? LoadedState)%string) with false.
  cbn iota. unfold NonblockingSplice.
  set (w1 := with_cursor w _).
  assert (Hd : length (drop c (view w)) = length pre + S (length post)).
  { rewrite Hv, length_app. reflexivity. }
  rewrite length_drop, (length_view w Ht) in Hd.
  destruct (splice_at w1 (c + length pre)) as (w2 & Hs2 & Hv2 & Hok2 & Ho & Hc2 & Hl2).
  - apply Ht.
  - change (table (registry w1)) with (table (registry w)). lia.
  - apply succ_no_wrap. destruct Ht as [_ Hmax]. lia.
  - rewrite Hs2. cbn [bind]. exists w2. split; [reflexivity |].
    change (view w1) with (view w) in Hv2.
    rewrite <- (take_drop c (view w)) in Hv2 at 1. rewrite Hv in Hv2.
    assert (Hlt : length (take c (view w) ++ pre) = c + length pre).
    { rewrite length_app, length_take, (length_view w Ht). lia. }
    rewrite app_assoc, <- Hlt, delete_middle, <- app_assoc in Hv2.
    split; [exact Hv2 |]. split; [exact Ho |]. split; [exact Hok2 |].
    split; [exact Hl2 | exact Hc2].
Qed.

(** X8. With the cursor at the start and exactly one record of the table
    matching the identity, in Loaded state, a first [UnloadPlugin] removes
    it and a second one for the same identity returns the not-found error,
    leaves the table as the first one left it and resets the cursor. *)
Theorem UnloadPlugin_twice `{Runtime} `{CatalogedPlugin T}
    (w : world) (pl : T) pre p post fuel :
  table_ok w -> records_ok w -> currentIter (registry w) = 0%Z ->
  view w = pre ++ p :: post ->
  no_match pl w pre -> is_match pl w p = true -> no_match pl w post ->
  state_of w p = Some LoadedState -> length (view w) < fuel ->
  exists w1 w2,
    UnloadPlugin fuel w pl = Done None w1
    /\ UnloadPlugin fuel w1 pl
       = Done (Some (PluginNotFound (Name pl) (Version pl))) w2
    /\ view w1 = pre ++ post
    /\ view w2 = pre ++ post
    /\ currentIter (registry w2) = 0%Z.
Proof.
  intros Ht Hr Hc Hv Hno Hm Hpost Hs Hfuel.
  assert (Hlen : length (view w) = length pre + S (length post)).
  { rewrite Hv, length_app. reflexivity. }
  destruct (UnloadPlugin_first_match_loaded w pl 0 pre p post fuel)
    as (w1 & Hu & Hv1 & Ho & Hok1 & Hl1 & Hc1); try assumption; [lia |].
  simpl in Hv1.
  pose proof (length_view w Ht) as Hlw. destruct Ht as [Hok Hmax].
  assert (Ht1 : table_ok w1) by (split; [exact Hok1 | lia]).
  assert (Hr1 : records_ok w1).
  { unfold records_ok. rewrite Hv1. unfold records_ok in Hr. rewrite Hv in Hr.
    apply Forall_app in Hr as [Hr1 Hr2]. apply Forall_cons in Hr2 as [_ Hr2].
    apply Forall_app.
    split; [apply (Forall_impl _ _ _ Hr1) | apply (Forall_impl _ _ _ Hr2)];
      intros q Hq; rewrite (deref_objects w w1 q Ho); exact Hq. }
  assert (Hcur : cursor_ok w1).
  { unfold cursor_ok. rewrite Hc1. destruct post; simpl in *; lia. }
  assert (Hno1 : no_match pl w1 (view w1)).
  { unfold no_match. rewrite Hv1. apply Forall_app.
    split; [apply (Forall_impl _ _ _ Hno) | apply (Forall_impl _ _ _ Hpost)];
      intros q Hq; rewrite (is_match_objects pl w w1 q Ho); exact Hq. }
  exists w1, (with_cursor w1 0). split; [exact Hu |]. split.
  - apply UnloadPlugin_no_match_from_cursor; try assumption.
    + apply Forall_drop. exact Hno1.
    + rewrite Hv1, length_app. lia.
  - auto.
Qed.

Lemma UnloadPlugin_twice_witness :
  exists w1 w2,
    UnloadPlugin (H := doubling) 4 three_loaded (a_plugin "b" 1 "") = Done None w1
    /\ UnloadPlugin (H := doubling) 4 w1 (a_plugin "b" 1 "")
       = Done (Some (PluginNotFound (Name (a_plugin "b" 1 "")) (Version (a_plugin "b" 1 "")))) w2
    /\ view w1 = [Some 0] ++ [Some 2]
    /\ view w2 = [Some 0] ++ [Some 2]
    /\ currentIter (registry w2) = 0%Z.
Proof.
  apply (UnloadPlugin_twice (H := doubling) three_loaded
           (a_plugin "b" 1 "") [Some 0] (Some 1) [Some 2] 4).
  - solve_table_ok.
  - solve_records_ok.
  - reflexivity.
  - reflexivity.
  - solve_no_match.
  - reflexivity.
  - solve_no_match.
  - reflexivity.
  - simpl. lia.
Defined.

(** X9. With the cursor from 0 up: when nothing from the cursor on
    matches, or the first match from the cursor on is the last entry of
    the table, [UnloadPlugin] returns with the cursor back at 0, whatever
    its result. *)
Theorem UnloadPlugin_resets_cursor_at_the_end `{Runtime} `{CatalogedPlugin T}
    (w : world) (pl : T) (c : nat) fuel :
  table_ok w -> records_ok w ->
  currentIter (registry w) = Z.of_nat c -> (Z.of_nat c < GoInt.max_int)%Z ->
  (no_match pl w (drop c (view w))
   \/ exists pre p, drop c (view w) = pre ++ [p]
                    /\ no_match pl w pre /\ is_match pl w p = true) ->
  S (length (view w)) < fuel ->
  exists e w', UnloadPlugin fuel w pl = Done e w' /\ currentIter (registry w') = 0%Z.
Proof.
  intros Ht Hr Hc Hcmax Hcase Hfuel. pose proof (length_view w Ht) as Hlw.
  assert (Hmax : (Z.of_nat (len (table (registry w))) < GoInt.max_int)%Z) by apply Ht.
  destruct Hcase as [Hno|(pre & p & Hd & Hno & Hm)].
  - do 2 eexists. split.
    + rewrite (UnloadPlugin_no_match_from_cursor w pl fuel); try assumption.
      * reflexivity.
      * unfold cursor_ok. rewrite Hc. lia.
      * rewrite Hc, Nat2Z.id. exact Hno.
      * lia.
    + reflexivity.
  - assert (Hd' : length (drop c (view w)) = length pre + 1).
    { rewrite Hd, length_app. reflexivity. }
    rewrite length_drop in Hd'.
    rewrite (UnloadPlugin_first_match w pl c pre p [] fuel) by (assumption || lia).
    destruct (is_match_deref pl w p Hm) as [s Hs]. rewrite Hs.
    destruct (negb (s =? LoadedState)%string).
    + do 2 eexists. split; reflexivity.
    + unfold NonblockingSplice.
      destruct (splice_at (with_cursor w 0) (c + length pre))
        as (w2 & Hs2 & _ & _ & _ & Hc2 & _).
      * apply Ht.
      * change (table (registry (with_cursor w 0))) with (table (registry w)). lia.
      * apply succ_no_wrap. lia.
      * rewrite Hs2. cbn [bind]. do 2 eexists. split; [reflexivity | exact Hc2].
Qed.

Lemma UnloadPlugin_resets_cursor_at_the_end_witness :
  exists e w', UnloadPlugin (H := doubling) 5 three_loaded (a_plugin "c" 1 "") = Done e w'
               /\ currentIter (registry w') = 0%Z.
Proof.
  apply (UnloadPlugin_resets_cursor_at_the_end (H := doubling) three_loaded
           (a_plugin "c" 1 "") 0 5).
  - solve_table_ok.
  - solve_records_ok.
  - reflexivity.
  - unfold GoInt.max_int. lia.
  - right. exists [Some 0; Some 1], (Some 2). split; [reflexivity |].
    split; [solve_no_match | reflexivity].
  - simpl. lia.
Defined.

(** X10. With the cursor at or past the length of the table, as it is
    after the entry before the last one was unloaded, [UnloadPlugin]
    visits no entry: for every identity, present or not, it returns the
    not-found error, keeps the table and puts the cursor back to 0. *)
Theorem UnloadPlugin_with_cursor_past_the_end `{Runtime} `{CatalogedPlugin T}
    (w : world) (pl : T) fuel :
  table_ok w -> records_ok w -> cursor_ok w ->
  (Z.of_nat (length (view w)) <= currentIter (registry w))%Z ->
  1 <= fuel ->
  exists w', UnloadPlugin fuel w pl
             = Done (Some (PluginNotFound (Name pl) (Version pl))) w'
    /\ view w' = view w /\ currentIter (registry w') = 0%Z.
Proof.
  intros Ht Hr Hc Hpast Hfuel. exists (with_cursor w 0). split; [| auto].
  unfold UnloadPlugin. rewrite <- (with_cursor_id w) at 1.
  rewrite <- (Z2Nat.id (currentIter (registry w))) by apply Hc.
  rewrite (find_loop_no_match pl w Ht Hr fuel).
  - reflexivity.
  - rewrite Z2Nat.id by apply Hc. apply Hc.
  - rewrite drop_ge by lia. apply Forall_nil_2.
  - rewrite <- (length_view w Ht). lia.
Qed.

Lemma UnloadPlugin_with_cursor_past_the_end_witness :
  exists w', UnloadPlugin (H := doubling) 1 stale (a_plugin "a" 1 "")
             = Done (Some (PluginNotFound (Name (a_plugin "a" 1 ""))
                             (Version (a_plugin "a" 1 "")))) w'
    /\ view w' = view stale /\ currentIter (registry w') = 0%Z.
Proof.
  apply (UnloadPlugin_with_cursor_past_the_end (H := doubling) stale (a_plugin "a" 1 "") 1).
  - solve_table_ok.
  - solve_records_ok.
  - unfold cursor_ok, GoInt.max_int. simpl. lia.
  - simpl. lia.
  - lia.
Defined.

(** ** LoadPlugin: further properties *)

Lemma insert_last (l : list loadedPlugin) (x y : loadedPlugin) :
  <[length l := y]> (l ++ [x]) = l ++ [y].
Proof.
  rewrite insert_app_r_alt by lia. rewrite Nat.sub_diag. reflexivity.
Qed.

Lemma deref_app w w' l p :
  objects w' = objects w ++ l -> is_Some (deref w p) -> deref w' p = deref w p.
Proof.
  intros Ho [r Hr]. unfold deref in *. destruct p as [a|]; [| discriminate].
  rewrite Ho. apply lookup_app_l. eapply lookup_lt_Some. exact Hr.
Qed.

(** The address that [new] returns is not in a table whose entries all
    point to plugin objects. *)
Lemma new_address_fresh w : records_ok w -> Some (length (objects w)) ∉ view w.
Proof.
  intros Hr Hin. unfold records_ok in Hr. rewrite Forall_forall in Hr.
  destruct (Hr _ Hin) as [r Hd]. simpl in Hd.
  apply lookup_lt_Some in Hd. lia.
Qed.

(** What [LoadPlugin] does when the plugin answers success. *)
Lemma LoadPlugin_run_success `{Runtime}
    (L : Launcher) (w : world) (path : string) ePlugin resp :
  slice_ok (arrays w) (table (registry w)) ->
  Some (length (objects w)) ∉ view w ->
  NewExecutablePlugin L (generateArgs (manager w) false) path false = inl ePlugin ->
  Start L ePlugin = None ->
  WaitForResponse L ePlugin (Second * 3) = inl resp ->
  plugin.State resp = plugin.PluginSuccess ->
  exists w', LoadPlugin L w path = Done None w'
    /\ view w' = view w ++ [Some (length (objects w))]
    /\ objects w' = objects w ++ [loaded_record L path resp]
    /\ deref w' (Some (length (objects w))) = Some (loaded_record L path resp)
    /\ Status (loaded_record L path resp) = "loaded"
    /\ currentIter (registry w') = currentIter (registry w)
    /\ slice_ok (arrays w') (table (registry w')).
Proof.
  intros Hok Hfresh Hn Hs Hw Hst. unfold LoadPlugin.
  change (manager (set_objects w _)) with (manager w). cbn [Path].
  rewrite Hn, Hs, Hw. rewrite bool_decide_eq_true_2 by exact Hst. cbn [negb].
  cbn [objects set_objects]. rewrite insert_last.
  match goal with |- context [Append ?x ?p] =>
    destruct (Append_fresh x p) as (w' & Ha & Hv & Hok' & Ho & Hc);
      [exact Hok | exact Hfresh |] end.
  rewrite Ha. cbn [bind]. exists w'. split; [reflexivity |].
  split; [exact Hv |]. split; [exact Ho |]. split.
  - unfold deref. rewrite Ho. simpl. rewrite lookup_app_r by lia.
    rewrite Nat.sub_diag. reflexivity.
  - split; [reflexivity |]. split; [exact Hc | exact Hok'].
Qed.

(** X11. When the launcher spawns and starts the plugin and the plugin
    answers success, on a backed table that does not hold the address of
    the new record, [LoadPlugin] returns nil; the table shows the old
    entries followed by the new record, whose fields are the path given
    and the name, version, type and token of the answer, in Loaded state
    with the load time of the clock; the cursor is as before. *)
Theorem LoadPlugin_success `{Runtime}
    (L : Launcher) (w : world) (path : string) ePlugin resp :
  slice_ok (arrays w) (table (registry w)) ->
  Some (length (objects w)) ∉ view w ->
  NewExecutablePlugin L (generateArgs (manager w) false) path false = inl ePlugin ->
  Start L ePlugin = None ->
  WaitForResponse L ePlugin (Second * 3) = inl resp ->
  plugin.State resp = plugin.PluginSuccess ->
  exists w', LoadPlugin L w path = Done None w'
    /\ view w' = view w ++ [Some (length (objects w))]
    /\ objects w' = objects w ++ [loaded_record L path resp]
    /\ deref w' (Some (length (objects w))) = Some (loaded_record L path resp)
    /\ Status (loaded_record L path resp) = "loaded"
    /\ currentIter (registry w') = currentIter (registry w)
    /\ slice_ok (arrays w') (table (registry w')).
Proof.
  intros Hok Hfresh Hn Hs Hw Hst.
  exact (LoadPlugin_run_success L w path ePlugin resp Hok Hfresh Hn Hs Hw Hst).
Qed.

Lemma LoadPlugin_success_witness :
  exists w', LoadPlugin (H := doubling) (responding (success "d" 4)) three_loaded "/bin/d"
             = Done None w'
    /\ view w' = view three_loaded ++ [Some (length (objects three_loaded))]
    /\ objects w'
       = objects three_loaded ++ [loaded_record (responding (success "d" 4)) "/bin/d" (success "d" 4)]
    /\ deref w' (Some (length (objects three_loaded)))
       = Some (loaded_record (responding (success "d" 4)) "/bin/d" (success "d" 4))
    /\ Status (loaded_record (responding (success "d" 4)) "/bin/d" (success "d" 4)) = "loaded"
    /\ currentIter (registry w') = currentIter (registry three_loaded)
    /\ slice_ok (arrays w') (table (registry w')).
Proof.
  apply (LoadPlugin_success (H := doubling) (responding (success "d" 4))
           three_loaded "/bin/d" 0 (success "d" 4)).
  - unfold slice_ok. simpl. lia.
  - change (view three_loaded) with [Some 0; Some 1; Some 2].
    repeat (apply not_elem_of_cons; split; [discriminate |]). apply not_elem_of_nil.
  - reflexivity.
  - reflexivity.
  - reflexivity.
  - reflexivity.
Defined.

(** What a nil result of [LoadPlugin] tells. *)
Lemma LoadPlugin_nil_inv `{Runtime}
    (L : Launcher) (w : world) (path : string) (w' : world) :
  slice_ok (arrays w) (table (registry w)) ->
  LoadPlugin L w path = Done None w' ->
  exists ePlugin resp,
    NewExecutablePlugin L (generateArgs (manager w) false) path false = inl ePlugin
    /\ Start L ePlugin = None
    /\ WaitForResponse L ePlugin (Second * 3) = inl resp
    /\ plugin.State resp = plugin.PluginSuccess
    /\ view w' = view w ++ [Some (length (objects w))]
    /\ length (view w') = S (length (view w))
    /\ deref w' (Some (length (objects w))) = Some (loaded_record L path resp).
Proof.
  intros Hok Hl. unfold LoadPlugin in Hl.
  change (manager (set_objects w _)) with (manager w) in Hl. cbn [Path] in Hl.
  destruct (NewExecutablePlugin L _ _ _) as [ePlugin|err] eqn:Hn; [| discriminate].
  destruct (Start L ePlugin) as [err|] eqn:Hs; [discriminate |].
  destruct (WaitForResponse L ePlugin _) as [resp|err] eqn:Hw; [| discriminate].
  case_bool_decide as Hst; cbn [negb] in Hl; [| discriminate].
  cbn [objects set_objects] in Hl. rewrite insert_last in Hl.
  match type of Hl with context [Append ?x ?p] =>
    destruct (Append x p) as [[e1|] w3| |] eqn:Ha end; cbn [bind] in Hl; try discriminate.
  inversion Hl; subst w3. clear Hl.
  apply Append_inv in Ha as [[Hne _]|(_ & _ & Hv & _ & Ho)]; [congruence | | exact Hok].
  change (view (set_objects _ _)) with (view w) in Hv.
  cbn [objects set_objects] in Ho.
  exists ePlugin, resp. do 4 (split; [reflexivity || assumption |]).
  split; [exact Hv |]. split.
  - rewrite Hv, length_app. cbn [length]. lia.
  - unfold deref. rewrite Ho. simpl. rewrite lookup_app_r by lia.
    rewrite Nat.sub_diag. reflexivity.
Qed.

(** X12. Whenever [LoadPlugin] returns nil on a backed table, the
    launcher has spawned and started the plugin, the plugin has answered
    success, and the table shows the old entries followed by one new
    record, populated from that answer and in Loaded state: no record
    enters the table half filled. *)
Theorem LoadPlugin_nil_means_loaded `{Runtime}
    (L : Launcher) (w : world) (path : string) (w' : world) :
  slice_ok (arrays w) (table (registry w)) ->
  LoadPlugin L w path = Done None w' ->
  exists ePlugin resp,
    NewExecutablePlugin L (generateArgs (manager w) false) path false = inl ePlugin
    /\ Start L ePlugin = None
    /\ WaitForResponse L ePlugin (Second * 3) = inl resp
    /\ plugin.State resp = plugin.PluginSuccess
    /\ view w' = view w ++ [Some (length (objects w))]
    /\ length (view w') = S (length (view w))
    /\ deref w' (Some (length (objects w))) = Some (loaded_record L path resp).
Proof.
  intros Hok Hl. exact (LoadPlugin_nil_inv L w path w' Hok Hl).
Qed.

Lemma LoadPlugin_nil_means_loaded_witness :
  exists ePlugin resp,
    NewExecutablePlugin (responding (success "collector" 1))
      (generateArgs (manager newPluginManager) false) "/bin/collector-v1" false = inl ePlugin
    /\ Start (responding (success "collector" 1)) ePlugin = None
    /\ WaitForResponse (responding (success "collector" 1)) ePlugin (Second * 3) = inl resp
    /\ plugin.State resp = plugin.PluginSuccess
    /\ view one_collector = view newPluginManager ++ [Some (length (objects newPluginManager))]
    /\ length (view one_collector) = S (length (view newPluginManager))
    /\ deref one_collector (Some (length (objects newPluginManager)))
       = Some (loaded_record (responding (success "collector" 1)) "/bin/collector-v1" resp).
Proof.
  apply (LoadPlugin_nil_means_loaded (H := doubling) (responding (success "collector" 1))
           newPluginManager "/bin/collector-v1" one_collector).
  - unfold slice_ok. simpl. lia.
  - reflexivity.
Defined.

(** X13. Load, then unload.  With the cursor at the start, a backed table
    of plugin objects none of which has the identity that the plugin
    reports, and room for one more entry: [LoadPlugin] returns nil, a
    following [UnloadPlugin] for the reported name and version returns nil,
    and the table then shows what it showed before the load, with the
    cursor at 0. *)
Theorem LoadPlugin_then_UnloadPlugin `{Runtime} `{CatalogedPlugin T}
    (L : Launcher) (w : world) (path : string) ePlugin resp (pl : T) fuel :
  table_ok w -> (Z.of_nat (length (view w)) + 1 < GoInt.max_int)%Z ->
  records_ok w -> currentIter (registry w) = 0%Z ->
  NewExecutablePlugin L (generateArgs (manager w) false) path false = inl ePlugin ->
  Start L ePlugin = None ->
  WaitForResponse L ePlugin (Second * 3) = inl resp ->
  plugin.State resp = plugin.PluginSuccess ->
  Name pl = plugin.Name (plugin.Meta resp) ->
  Version pl = plugin.Version (plugin.Meta resp) ->
  no_match pl w (view w) ->
  length (view w) + 2 <= fuel ->
  exists w1 w2,
    LoadPlugin L w path = Done None w1
    /\ UnloadPlugin fuel w1 pl = Done None w2
    /\ view w2 = view w
    /\ currentIter (registry w2) = 0%Z.
Proof.
  intros Ht Hroom Hr Hc Hn Hs Hw Hst Hname Hver Hno Hfuel.
  pose proof (length_view w Ht) as Hlw. destruct Ht as [Hok Hmax].
  destruct (LoadPlugin_run_success L w path ePlugin resp Hok (new_address_fresh w Hr) Hn Hs Hw Hst)
    as (w1 & Hl & Hv1 & Ho1 & Hd1 & _ & Hc1 & Hok1).
  pose proof (length_elems _ _ Hok1) as Hl1. fold (view w1) in Hl1.
  rewrite Hv1, length_app in Hl1. simpl in Hl1.
  assert (Hold : forall q, is_Some (deref w q) -> deref w1 q = deref w q).
  { intros q Hq. eapply deref_app; eassumption. }
  unfold records_ok in Hr. unfold no_match in Hno.
  assert (Ht1 : table_ok w1) by (split; [exact Hok1 | lia]).
  assert (Hr1 : records_ok w1).
  { unfold records_ok. rewrite Hv1. apply Forall_app. split.
    - apply (Forall_impl _ _ _ Hr). intros q Hq. rewrite (Hold q Hq). exact Hq.
    - apply Forall_cons. split; [rewrite Hd1; eauto | apply Forall_nil_2]. }
  assert (Hno1 : no_match pl w1 (view w)).
  { unfold no_match. rewrite Forall_forall in Hr, Hno. apply Forall_forall.
    intros q Hq. unfold is_match. rewrite (Hold q (Hr q Hq)). apply (Hno q Hq). }
  assert (Hm1 : is_match pl w1 (Some (length (objects w))) = true).
  { unfold is_match. rewrite Hd1. simpl. rewrite Hname, Hver.
    rewrite String.eqb_refl, Z.eqb_refl. reflexivity. }
  assert (Hs1 : state_of w1 (Some (length (objects w))) = Some LoadedState).
  { unfold state_of. rewrite Hd1. reflexivity. }
  destruct (UnloadPlugin_first_match_loaded w1 pl 0 (view w) (Some (length (objects w))) [] fuel)
    as (w2 & Hu & Hv2 & _ & _ & _ & Hc2); try assumption.
  - rewrite Hc1, Hc. reflexivity.
  - exists w1, w2. split; [exact Hl |]. split; [exact Hu |].
    simpl in Hv2. rewrite app_nil_r in Hv2. auto.
Qed.

Lemma LoadPlugin_then_UnloadPlugin_witness :
  exists w1 w2,
    LoadPlugin (H := doubling) (responding (success "d" 4)) three_loaded "/bin/d" = Done None w1
    /\ UnloadPlugin (H := doubling) 5 w1 (a_plugin "d" 4 "") = Done None w2
    /\ view w2 = view three_loaded
    /\ currentIter (registry w2) = 0%Z.
Proof.
  apply (LoadPlugin_then_UnloadPlugin (H := doubling) (responding (success "d" 4))
           three_loaded "/bin/d" 0 (success "d" 4) (a_plugin "d" 4 "") 5).
  - solve_table_ok.
  - unfold GoInt.max_int. simpl. lia.
  - solve_records_ok.
  - reflexivity.
  - reflexivity.
  - reflexivity.
  - reflexivity.
  - reflexivity.
  - reflexivity.
  - reflexivity.
  - solve_no_match.
  - simpl. lia.
Defined.

(** ** Reachable states: further properties *)

(** What one call of [LoadPlugin] does to the heap of plugin objects and
    to the table. *)
Lemma LoadPlugin_step `{Runtime} L w path e w' :
  slice_ok (arrays w) (table (registry w)) ->
  LoadPlugin L w path = Done e w' ->
  slice_ok (arrays w') (table (registry w'))
  /\ exists r, objects w' = objects w ++ [r]
       /\ (State r = DetectedState \/ State r = LoadedState)
       /\ (view w' = view w
           \/ (State r = LoadedState
               /\ (Some (length (objects w)) ∉ view w)
               /\ view w' = view w ++ [Some (length (objects w))])).
Proof.
  intros Hok Hl. unfold LoadPlugin in Hl.
  assert (Hearly : forall (e0 : error) r,
            State r = DetectedState ->
            Done e0 (set_objects w (objects w ++ [r])) = Done e w' ->
            slice_ok (arrays w') (table (registry w'))
            /\ exists r, objects w' = objects w ++ [r]
                 /\ (State r = DetectedState \/ State r = LoadedState)
                 /\ (view w' = view w
                     \/ (State r = LoadedState
                         /\ (Some (length (objects w)) ∉ view w)
                         /\ view w' = view w ++ [Some (length (objects w))]))).
  { intros e0 r Hr Heq. inversion Heq; subst. split; [exact Hok |].
    exists r. auto. }
  destruct (NewExecutablePlugin L _ _ _) as [ePlugin|err]; [| eapply Hearly; [| exact Hl]; reflexivity].
  destruct (Start L ePlugin) as [err|]; [eapply Hearly; [| exact Hl]; reflexivity |].
  destruct (WaitForResponse L ePlugin _) as [resp|err]; [| eapply Hearly; [| exact Hl]; reflexivity].
  destruct (negb _); [eapply Hearly; [| exact Hl]; reflexivity |].
  cbn [objects set_objects] in Hl. rewrite insert_last in Hl.
  match type of Hl with context [Append ?x ?p] =>
    destruct (Append x p) as [e1 w3| |] eqn:Ha end; cbn [bind] in Hl; try discriminate.
  assert (Hw3 : w' = w3) by (destruct e1; inversion Hl; reflexivity). subst w3.
  apply Append_inv in Ha as [[_ ->]|(_ & Hnot & Hv & Hok' & Ho)]; [| | exact Hok].
  - split; [exact Hok |]. eexists. split; [reflexivity |]. auto.
  - split; [exact Hok' |]. eexists. split; [exact Ho |]. split; [right; reflexivity |].
    right. split; [reflexivity |]. split; [exact Hnot | exact Hv].
Qed.




(** ** A registry changed through the manager only *)

(** Once the scan has found its plugin, it keeps it. *)
Lemma find_loop_found_stays `{CatalogedPlugin T} (pl : T) fuel idx plg w i p f w' :
  find_loop fuel pl idx plg true w = Done (i, p, f) w' ->
  i = idx /\ p = plg /\ f = true.
Proof.
  destruct fuel as [|fuel]; [discriminate |]. cbn [find_loop]. unfold Next.
  destruct (_ >? _)%Z; cbn [bind negb]; intros Hf; inversion Hf; auto.
Qed.

(** The plugin that the scan reports is an entry of the table. *)
Lemma find_loop_found `{CatalogedPlugin T} (pl : T) fuel : forall idx plg w i p w',
  find_loop fuel pl idx plg false w = Done (i, p, true) w' -> p ∈ view w.
Proof.
  induction fuel as [|fuel IH]; intros idx plg w i p w' Hf; [discriminate |].
  cbn [find_loop] in Hf. unfold Next in Hf.
  destruct (_ >? _)%Z; cbn [bind negb] in Hf; [discriminate |].
  unfold Item in Hf.
  match type of Hf with context [index ?h ?s ?j] =>
    destruct (index h s j) as [lp|] eqn:Hi end; [| discriminate].
  cbn [bind] in Hf.
  match type of Hf with context [deref ?x lp] => destruct (deref x lp) as [r|] end;
    [| discriminate].
  assert (Hin : lp ∈ view w).
  { unfold index in Hi. case_bool_decide; [| discriminate].
    eapply list_elem_of_lookup_2. exact Hi. }
  match type of Hf with context [if ?b then _ else _] => destruct b end.
  - apply find_loop_found_stays in Hf as (_ & -> & _). exact Hin.
  - apply IH in Hf. exact Hf.
Qed.

Lemma not_found_is_not_state_error name version : PluginNotFound name version <> InvalidState.
Proof. unfold PluginNotFound, InvalidState. simpl. discriminate. Qed.

(** A table whose entries are all Loaded never gives the state error. *)
Lemma UnloadPlugin_all_loaded `{Runtime} `{CatalogedPlugin T} w (pl : T) fuel e w' :
  all_loaded w -> UnloadPlugin fuel w pl = Done e w' -> e <> Some InvalidState.
Proof.
  intros Hall Hu. unfold UnloadPlugin in Hu.
  destruct (find_loop fuel pl 0 None false w) as [[[i p] f] w1| |] eqn:Hf; [| discriminate..].
  cbn [bind] in Hu. destruct f; cbn [negb] in Hu.
  - pose proof (find_loop_found pl fuel _ _ _ _ _ _ Hf) as Hin.
    apply find_loop_frame in Hf as [[c ->] _].
    change (deref (with_cursor w c) p) with (deref w p) in Hu.
    unfold all_loaded in Hall. rewrite Forall_forall in Hall.
    specialize (Hall p Hin). unfold state_of in Hall.
    destruct (deref w p) as [r|]; [| discriminate].
    simpl in Hall. inversion Hall as [Hst]. rewrite Hst in Hu.
    change (negb (LoadedState =? LoadedState)%string) with false in Hu. cbn iota in Hu.
    destruct (NonblockingSplice _ _) as [[] w2| |]; cbn [bind] in Hu; try discriminate.
    inversion Hu. discriminate.
  - inversion Hu. intros Heq.
    apply (not_found_is_not_state_error (Name pl) (Version pl)). congruence.
Qed.

Lemma state_of_app w w' l p :
  objects w' = objects w ++ l -> is_Some (state_of w p) -> state_of w' p = state_of w p.
Proof.
  intros Ho Hs. unfold state_of in *. rewrite (deref_app w w' l p Ho); [reflexivity |].
  destruct (deref w p); [eauto | destruct Hs; discriminate].
Qed.

Lemma managed_invariant `{Runtime} w :
  managed w -> slice_ok (arrays w) (table (registry w)) /\ all_loaded w.
Proof.
  induction 1 as [|w w' _ [Hok Hall] Hstep].
  - split; [unfold slice_ok; simpl; lia | apply Forall_nil_2].
  - destruct Hstep as [L w path e w' Hl | T C fuel w pl e w' Hu].
    + apply LoadPlugin_step in Hl as (Hok' & r & Ho & _ & Hcase); [| exact Hok].
      split; [exact Hok' |]. unfold all_loaded in *.
      assert (Hold : Forall (fun p => state_of w' p = Some LoadedState) (view w)).
      { apply (Forall_impl _ _ _ Hall). intros p Hp.
        rewrite (state_of_app w w' [r] p Ho); [exact Hp | rewrite Hp; eauto]. }
      destruct Hcase as [->|(Hr & _ & ->)]; [exact Hold |].
      apply Forall_app. split; [exact Hold |].
      apply Forall_cons. split; [| apply Forall_nil_2].
      unfold state_of, deref. rewrite Ho, lookup_app_r by lia.
      rewrite Nat.sub_diag. simpl. rewrite Hr. reflexivity.
    + apply UnloadPlugin_inv in Hu as (Hok' & Ho & Hv); [| exact Hok].
      split; [exact Hok' |]. unfold all_loaded in *.
      assert (Hsame : Forall (fun p => state_of w' p = Some LoadedState) (view w)).
      { apply (Forall_impl _ _ _ Hall). intros p Hp.
        unfold state_of. rewrite (deref_objects w w' p Ho). exact Hp. }
      destruct Hv as [->|[k ->]]; [exact Hsame | apply Forall_delete; exact Hsame].
Qed.

Lemma all_loaded_records_ok w : all_loaded w -> records_ok w.
Proof.
  unfold all_loaded, records_ok. intros Hall. apply (Forall_impl _ _ _ Hall).
  intros p Hp. unfold state_of in Hp. destruct (deref w p); [eauto | discriminate].
Qed.

(** X15. In every state reached from a new manager by calls of
    LoadPlugin and UnloadPlugin alone, every entry of the table points to
    a plugin object in Loaded state, and [UnloadPlugin] never returns the
    state error. *)
Theorem managed_table_is_loaded `{Runtime} (w : world) :
  managed w ->
  all_loaded w
  /\ (forall (T : Type) (C : CatalogedPlugin T) fuel (pl : T) e w',
        UnloadPlugin fuel w pl = Done e w' -> e <> Some InvalidState).
Proof.
  intros Hm. destruct (managed_invariant w Hm) as [_ Hall].
  split; [exact Hall |]. intros T C fuel pl e w' Hu.
  eapply UnloadPlugin_all_loaded; eassumption.
Qed.

Lemma three_loaded_managed : managed (H := doubling) three_loaded.
Proof.
  eapply managed_step; [eapply managed_step; [eapply managed_step; [apply managed_new |] |] |].
  - eapply (manager_LoadPlugin (responding (success "a" 1)) _ "/bin/a"). reflexivity.
  - eapply (manager_LoadPlugin (responding (success "b" 1)) _ "/bin/b"). reflexivity.
  - eapply (manager_LoadPlugin (responding (success "c" 1)) _ "/bin/c"). reflexivity.
Qed.

Lemma managed_table_is_loaded_witness :
  all_loaded three_loaded
  /\ (forall (T : Type) (C : CatalogedPlugin T) fuel (pl : T) e w',
        UnloadPlugin (H := doubling) fuel three_loaded pl = Done e w' ->
        e <> Some InvalidState).
Proof.
  apply (managed_table_is_loaded (H := doubling) three_loaded).
  apply three_loaded_managed.
Defined.

(** X16. In every state reached from a new manager by calls of
    LoadPlugin and UnloadPlugin alone, a load whose plugin is spawned,
    started and answers success returns nil and makes the table one
    longer: the duplicate error of Append does not occur. *)
Theorem managed_load_succeeds `{Runtime}
    (L : Launcher) (w : world) (path : string) ePlugin resp :
  managed w ->
  NewExecutablePlugin L (generateArgs (manager w) false) path false = inl ePlugin ->
  Start L ePlugin = None ->
  WaitForResponse L ePlugin (Second * 3) = inl resp ->
  plugin.State resp = plugin.PluginSuccess ->
  exists w', LoadPlugin L w path = Done None w'
    /\ length (view w') = S (length (view w))
    /\ managed w'.
Proof.
  intros Hm Hn Hs Hw Hst. destruct (managed_invariant w Hm) as [Hok Hall].
  destruct (LoadPlugin_run_success L w path ePlugin resp Hok
              (new_address_fresh w (all_loaded_records_ok w Hall)) Hn Hs Hw Hst)
    as (w' & Hl & Hv & _).
  exists w'. split; [exact Hl |]. split.
  - rewrite Hv, length_app. simpl. lia.
  - eapply managed_step; [exact Hm |]. eapply manager_LoadPlugin. exact Hl.
Qed.

Lemma managed_load_succeeds_witness :
  exists w', LoadPlugin (H := doubling) (responding (success "d" 4)) three_loaded "/bin/d"
             = Done None w'
    /\ length (view w') = S (length (view three_loaded))
    /\ managed (H := doubling) w'.
Proof.
  apply (managed_load_succeeds (H := doubling) (responding (success "d" 4))
           three_loaded "/bin/d" 0 (success "d" 4)).
  - apply three_loaded_managed.
  - reflexivity.
  - reflexivity.
  - reflexivity.
  - reflexivity.
Defined.
